(** * Performance instrumentation of the comic reader: a shallow embedding

    The development follows four source files of the application:

    - [lib/performance/logger.ts]      : [PerformanceLogger] (module [Tracker])
      and [WebVitalsLogger] (module [Vitals]);
    - [lib/performance/layoutShift.ts] : [LayoutShiftAnalyzer] (module
      [LayoutShift]);
    - [foundation/hooks/useWorkerImage.ts] : the pending-task registry of the
      image worker and the data-URL cache (module [WorkerImage]).

    Conventions of the embedding.

    - A JavaScript [number] is modelled by an exact rational ([Q]): every
      finite double is a rational, comparisons of doubles are exact, and the
      rounding of [+], [-] and [/] is not modelled.  [NaN] and the infinities
      are left out.  Where the rounding decides the outcome, in the window
      test of [getTotalScore], the method is modelled a second time on
      IEEE 754 binary64 numbers (module [LayoutShiftDouble]).
    - A JavaScript [Map] whose iteration order is not observed by the code
      under study is a [gmap]; one whose order is observed (the image cache,
      the per-element statistics object) is an association list in insertion
      order.
    - Methods that mutate their object are functions on an explicit state.
      [console] output is a list of structured lines, oldest first.
    - The first part of the file holds the definitions, the second part the
      lemmas and theorems. *)

From Stdlib Require Import QArith Lqa Sorted Permutation.
From stdpp Require Import gmap strings list.

Open Scope Q_scope.

(** ** JavaScript values and numbers *)

(** The values that flow through [Record<string, any>] metadata and through
    [throw].  [AError message] is an instance of [Error] whose [message] is a
    plain string; [AOther repr] is any other value (a number, an object with
    the built-in [toString]) for which [String(v)] yields [repr] and runs no
    code of the application.  [AUnprintable raised] is a value whose
    conversion to text throws [raised]: an object without [toString], such
    as [Object.create(null)], for which [String(v)] raises a [TypeError], or
    a value whose [toString] or [message] getter throws.  Values whose
    conversion changes the state of the application before it yields a
    string are not represented. *)
Inductive any : Type :=
  | AUndefined
  | ANull
  | ABool (b : bool)
  | AStr (s : string)
  | AError (message : string)
  | AOther (repr : string)
  | AUnprintable (raised : any).

(** [a > b] and [a < b] on numbers, as booleans. *)
Definition Qgtb (a b : Q) : bool := negb (Qle_bool a b).
Definition Qltb (a b : Q) : bool := negb (Qle_bool b a).

(** The three console colours used by every report
    (red, yellow and green circles in the source). *)
Inductive Color : Type := Red | Yellow | Green.

(** How a call ends: [return v] or [throw error]. *)
Inductive Completion (T : Type) : Type :=
  | Returned (v : T)
  | Thrown (error : any).
Arguments Returned {T} v.
Arguments Thrown {T} error.

(** How a promise settles. *)
Inductive Settlement (T : Type) : Type :=
  | Fulfilled (v : T)
  | Rejected (error : any).
Arguments Fulfilled {T} v.
Arguments Rejected {T} error.

(** ** [PerformanceLogger] (logger.ts) *)

Module Tracker.

(** [interface PerformanceData] *)
Record PerformanceData : Type := mkPerformanceData {
  name : string;
  startTime : Q;
  endTime : option Q;
  duration : option Q;
  metadata : option (gmap string any);
}.

(** The lines [PerformanceLogger] writes to the console. *)
Inductive ConsoleLine : Type :=
  | LogStarted (name : string) (metadata : option (gmap string any))
  | WarnNoMeasurement (name : string)
  | LogFinished (color : Color) (name : string) (duration : Q)
                (merged : gmap string any).

(** The logger object: [isEnabled] is assigned once, by the constructor.
    Its [measurements] map is mutable and lives in the [World]. *)
Record PerformanceLogger : Type := { isEnabled : bool }.

(** [this.isEnabled = process.env['NODE_ENV'] === 'development'] *)
Definition constructor (NODE_ENV : option string) : PerformanceLogger :=
  {| isEnabled := bool_decide (NODE_ENV = Some "development"%string) |}.

(** Everything a wrapped function can read or change: the logger's map, the
    console, the clock read by [performance.now()] and the rest of the
    application, of an arbitrary type [App]. *)
Record World (App : Type) : Type := mkWorld {
  measurements : gmap string PerformanceData;
  console : list ConsoleLine;
  now : Q;
  app : App;
}.
Arguments mkWorld {App}.
Arguments measurements {App}.
Arguments console {App}.
Arguments now {App}.
Arguments app {App}.

(** The environment lets time pass. *)
Definition at_time {App} (t : Q) (w : World App) : World App :=
  mkWorld (measurements w) (console w) t (app w).

(** [{...a, ...b}] where either side may be [undefined]. *)
Definition spread (a b : option (gmap string any)) : gmap string any :=
  default ∅ b ∪ default ∅ a.

(** [duration > 100 ? red : duration > 50 ? yellow : green] *)
Definition durationColor (duration : Q) : Color :=
  if Qgtb duration 100 then Red
  else if Qgtb duration 50 then Yellow
  else Green.

Section Methods.
Context {App : Type}.
Variable this : PerformanceLogger.

Definition start (name : string) (metadata : option (gmap string any))
    (w : World App) : World App :=
  if negb (isEnabled this) then w
  else
    let startTime := now w in
    mkWorld
      (<[name := mkPerformanceData name startTime None None metadata]>
         (measurements w))
      (console w ++ [LogStarted name metadata])
      (now w) (app w).

Definition end_ (name : string) (metadata : option (gmap string any))
    (w : World App) : option Q * World App :=
  if negb (isEnabled this) then (None, w)
  else
    match measurements w !! name with
    | None =>
        (None,
         mkWorld (measurements w) (console w ++ [WarnNoMeasurement name])
                 (now w) (app w))
    | Some measurement =>
        let endTime := now w in
        let duration := endTime - startTime measurement in
        let measurement' :=
          mkPerformanceData (Tracker.name measurement)
            (startTime measurement) (Some endTime) (Some duration)
            (Tracker.metadata measurement) in
        let color := durationColor duration in
        (Some duration,
         mkWorld (<[name := measurement']> (measurements w))
                 (console w ++
                    [LogFinished color name duration
                       (spread (Tracker.metadata measurement) metadata)])
                 (now w) (app w))
    end.

(** [error instanceof Error ? error.message : String(error)]: the
    conversion yields a string or throws. *)
Definition errorText (error : any) : Completion string :=
  match error with
  | AError message => Returned message
  | AUndefined => Returned "undefined"%string
  | ANull => Returned "null"%string
  | ABool true => Returned "true"%string
  | ABool false => Returned "false"%string
  | AStr s => Returned s
  | AOther repr => Returned repr
  | AUnprintable raised => Thrown raised
  end.

(** [{ error: text }] *)
Definition errorMetadata (text : string) : option (gmap string any) :=
  Some {[ "error"%string := AStr text ]}.

(** In the [catch] block the argument of [this.end] is evaluated first: when
    the conversion of the caught value throws, neither [this.end] nor
    [throw error] runs and the error of the conversion leaves the block. *)
Definition measure {T : Type} (name : string)
    (fn : World App -> Completion T * World App)
    (metadata : option (gmap string any))
    (w : World App) : Completion T * World App :=
  let w1 := start name metadata w in
  match fn w1 with
  | (Returned result, w2) =>
      let '(_, w3) := end_ name None w2 in
      (Returned result, w3)
  | (Thrown error, w2) =>
      match errorText error with
      | Returned text =>
          let '(_, w3) := end_ name (errorMetadata text) w2 in
          (Thrown error, w3)
      | Thrown raised => (Thrown raised, w2)
      end
  end.

(** A promise is followed up to the moment it settles: it takes the world
    at the [await] to the settlement and the world found on resumption
    (other turns of the event loop included). *)
Definition Promise (T : Type) : Type :=
  World App -> Settlement T * World App.

(** [await fn()] inside an [async] function, without any instrumentation:
    a synchronous throw of [fn] and a rejection of its promise both
    reject. *)
Definition awaitCall {T : Type}
    (fn : World App -> Completion (Promise T) * World App) : Promise T :=
  fun w =>
    match fn w with
    | (Returned p, w1) => p w1
    | (Thrown error, w1) => (Rejected error, w1)
    end.

Definition measureAsync {T : Type} (name : string)
    (fn : World App -> Completion (Promise T) * World App)
    (metadata : option (gmap string any)) : Promise T :=
  fun w =>
    let w1 := start name metadata w in
    match awaitCall fn w1 with
    | (Fulfilled result, w2) =>
        let '(_, w3) := end_ name None w2 in
        (Fulfilled result, w3)
    | (Rejected error, w2) =>
        match errorText error with
        | Returned text =>
            let '(_, w3) := end_ name (errorMetadata text) w2 in
            (Rejected error, w3)
        | Thrown raised => (Rejected raised, w2)
        end
    end.

(** [this.measurements.clear()] *)
Definition clear (w : World App) : World App :=
  mkWorld ∅ (console w) (now w) (app w).

End Methods.

(** A record is completed when [endTime] and [duration] are set. *)
Definition completed (m : PerformanceData) : Prop :=
  is_Some (endTime m) /\ is_Some (duration m).

(** A logger in development mode and an empty world at time [0]
    whose application state is [tt]. *)
Definition enabled : PerformanceLogger :=
  constructor (Some "development"%string).
Definition w0 : World unit := mkWorld ∅ [] 0 tt.

(** A function that throws [new Error("boom")], an asynchronous one whose
    promise rejects with it, and the world in which they run under
    [measure enabled "op"]. *)
Definition boom : any := AError "boom".
Definition throwBoom (w : World unit) : Completion unit * World unit :=
  (Thrown boom, w).
Definition rejectBoom (w : World unit)
    : Completion (Promise (App:=unit) unit) * World unit :=
  (Returned (fun w' => (Rejected boom, w')), w).
Definition started : World unit := start enabled "op" None w0.

(** A logger in production mode; the value [Object.create(null)], for which
    [String] raises a [TypeError]; a function that throws that value and an
    asynchronous one whose promise rejects with it. *)
Definition disabled : PerformanceLogger :=
  constructor (Some "production"%string).
Definition typeError : any :=
  AError "Cannot convert object to primitive value".
Definition bare : any := AUnprintable typeError.
Definition throwBare (w : World unit) : Completion unit * World unit :=
  (Thrown bare, w).
Definition rejectBare (w : World unit)
    : Completion (Promise (App:=unit) unit) * World unit :=
  (Returned (fun w' => (Rejected bare, w')), w).

(** The world after [start("op")] at time 0 and [end("op")] at time 10. *)
Definition endedOnce : World unit :=
  snd (end_ enabled "op" None (at_time 10 started)).

(** The metadata [{a: 1}] and [{b: 2}]. *)
Definition sampleM2 : option (gmap string any) :=
  Some {[ "a"%string := AOther "1" ]}.
Definition sampleM3 : option (gmap string any) :=
  Some {[ "b"%string := AOther "2" ]}.

End Tracker.

(** ** Rating functions of [WebVitalsLogger] (logger.ts) *)

Module Vitals.

(** ['good' | 'needs-improvement' | 'poor'] *)
Inductive Rating : Type := good | needs_improvement | poor.

Definition getLCPRating (value : Q) : Rating :=
  if Qle_bool value 2500 then good
  else if Qle_bool value 4000 then needs_improvement
  else poor.

Definition getFIDRating (value : Q) : Rating :=
  if Qle_bool value 100 then good
  else if Qle_bool value 300 then needs_improvement
  else poor.

Definition getCLSRating (value : Q) : Rating :=
  if Qle_bool value 0.1 then good
  else if Qle_bool value 0.25 then needs_improvement
  else poor.

Definition getFCPRating (value : Q) : Rating :=
  if Qle_bool value 1800 then good
  else if Qle_bool value 3000 then needs_improvement
  else poor.

Definition getTTFBRating (value : Q) : Rating :=
  if Qle_bool value 800 then good
  else if Qle_bool value 1800 then needs_improvement
  else poor.

(** A rating function [f] has the tiers [a] and [b] when it rates good
    exactly the values up to [a], needs-improvement exactly those above [a]
    and up to [b], and poor exactly those above [b]: one row of the threshold
    table of the specification. *)
Definition tiers (f : Q -> Rating) (a b : Q) : Prop :=
  forall v : Q,
    (f v = good <-> v <= a)
    /\ (f v = needs_improvement <-> a < v /\ v <= b)
    /\ (f v = poor <-> b < v).

End Vitals.

(** ** [LayoutShiftAnalyzer] (layoutShift.ts) *)

Module LayoutShift.

Record DOMRect : Type := { x : Q; y : Q; width : Q; height : Q }.

(** One element of [LayoutShiftDetail.sources]. *)
Record LayoutShiftSource (Element : Type) : Type := mkSource {
  node : Element;
  currentRect : DOMRect;
  previousRect : DOMRect;
}.
Arguments mkSource {Element}.
Arguments node {Element}.
Arguments currentRect {Element}.
Arguments previousRect {Element}.

(** [interface LayoutShiftDetail]: a stored shift record. *)
Record LayoutShiftDetail (Element : Type) : Type := mkDetail {
  score : Q;
  timestamp : Q;
  sources : list (LayoutShiftSource Element);
  hadRecentInput : bool;
}.
Arguments mkDetail {Element}.
Arguments score {Element}.
Arguments timestamp {Element}.
Arguments sources {Element}.
Arguments hadRecentInput {Element}.

(** An entry handed to the observer callback.  [entrySources] is [None]
    when the browser gives no [sources]. *)
Record PerformanceEntry (Element : Type) : Type := mkEntry {
  entryType : string;
  startTime : Q;
  value : Q;
  entrySources : option (list (LayoutShiftSource Element));
  entryHadRecentInput : bool;
}.
Arguments mkEntry {Element}.
Arguments entryType {Element}.
Arguments startTime {Element}.
Arguments value {Element}.
Arguments entrySources {Element}.
Arguments entryHadRecentInput {Element}.

(** ['low' | 'medium' | 'high'] *)
Inductive Severity : Type := low | medium | high.

(** The lines the analyzer writes to the console; [toFixed] is not
    modelled, a line carries the numbers it prints. *)
Inductive ConsoleLine : Type :=
  | GroupShift (color : Color) (score : Q) (severity : Severity)
  | LogTimestamp (timestamp : Q)
  | LogAffected
  | LogSource (index : nat) (selector : string)
  | LogPrevious (rect : DOMRect)
  | LogCurrent (rect : DOMRect)
  | LogMovement (deltaX deltaY deltaW deltaH : Q)
  | GroupEnd
  | WarnTotal (totalScore : Q)
  | GroupReport
  | LogTotal (color : Color) (totalScore : Q)
  | LogTop
  | LogElement (index : nat) (severity : Color) (selector : string)
  | LogElementStats (count : nat) (totalScore avgScore : Q)
  | WarnObserver.

(** What the browser offers to the constructor: no [PerformanceObserver], one
    whose subscription throws, or one that observes. *)
Inductive Support : Type := NoObserver | ObserveThrows | Observes.

(** The analyzer together with what it reads and writes: the clock behind
    [performance.now()] and the console. *)
Record State (Element : Type) : Type := mkState {
  shifts : list (LayoutShiftDetail Element);
  observer : bool;
  isEnabled : bool;
  console : list ConsoleLine;
  now : Q;
}.
Arguments mkState {Element}.
Arguments shifts {Element}.
Arguments observer {Element}.
Arguments isEnabled {Element}.
Arguments console {Element}.
Arguments now {Element}.

(** [{ count, totalScore }] and [{ count, totalScore, avgScore }] *)
Record Stats : Type := mkStats { count : nat; totalScore : Q }.
Record StatsAvg : Type := mkStatsAvg {
  count' : nat;
  totalScore' : Q;
  avgScore : Q;
}.

Definition getShiftSeverity (score : Q) : Severity :=
  if Qltb score 0.01 then low
  else if Qltb score 0.1 then medium
  else high.

(** [severity === 'high' ? red : severity === 'medium' ? yellow : green] *)
Definition severityColor (severity : Severity) : Color :=
  match severity with
  | high => Red
  | medium => Yellow
  | low => Green
  end.

(** [Array.prototype.sort(cmp)]: the stable ordering of [l] in which [a]
    stays before [b] unless [cmp a b > 0].  For a consistent comparator the
    result does not depend on the algorithm; insertion from the right is
    used here. *)
Fixpoint sortInsert {A : Type} (cmp : A -> A -> Q) (a : A) (l : list A)
    : list A :=
  match l with
  | [] => [a]
  | b :: l' =>
      if Qgtb (cmp a b) 0 then b :: sortInsert cmp a l' else a :: b :: l'
  end.

Definition sort {A : Type} (cmp : A -> A -> Q) (l : list A) : list A :=
  foldr (sortInsert cmp) [] l.

(** The property names every plain object inherits from
    [Object.prototype]. *)
Definition inheritedNames : list string :=
  [ "constructor"; "__proto__"; "hasOwnProperty"; "isPrototypeOf";
    "propertyIsEnumerable"; "toLocaleString"; "toString"; "valueOf";
    "__defineGetter__"; "__defineSetter__"; "__lookupGetter__";
    "__lookupSetter__" ]%string.

Definition inherited (key : string) : bool :=
  existsb (String.eqb key) inheritedNames.

(** The update of a row the object owns, or its creation, on an object whose
    own keys are kept in insertion order (a selector starts with a tag name,
    so it is no integer-like key). *)
Fixpoint addOwn (selector : string) (score : Q)
    (stats : list (string * Stats)) : list (string * Stats) :=
  match stats with
  | [] => [(selector, mkStats (0 + 1) (0 + score))]
  | (k, s) :: rest =>
      if String.eqb k selector
      then (k, mkStats (count s + 1) (totalScore s + score)) :: rest
      else (k, s) :: addOwn selector score rest
  end.

(** [if (!stats[selector]) stats[selector] = {count: 0, totalScore: 0};
     stats[selector].count++; stats[selector].totalScore += score].
    For a selector that is an inherited name, [stats[selector]] is
    the inherited function (for [__proto__], the prototype) and truthy: no
    row is created, the two updates land on the inherited object, and the
    own properties of [stats] stay as they are. *)
Definition addShift (selector : string) (score : Q)
    (stats : list (string * Stats)) : list (string * Stats) :=
  if inherited selector then stats else addOwn selector score stats.

(** [(a, b) => b.totalScore - a.totalScore] on entries *)
Definition byTotalDesc (a b : string * StatsAvg) : Q :=
  totalScore' (snd b) - totalScore' (snd a).

(** [avgScore > 0.1 ? red : avgScore > 0.01 ? yellow : green] *)
Definition elementSeverity (stats : StatsAvg) : Color :=
  if Qgtb (avgScore stats) 0.1 then Red
  else if Qgtb (avgScore stats) 0.01 then Yellow
  else Green.

(** [totalScore > 0.25 ? red : totalScore > 0.1 ? yellow : green] *)
Definition totalColor (totalScore : Q) : Color :=
  if Qgtb totalScore 0.25 then Red
  else if Qgtb totalScore 0.1 then Yellow
  else Green.

Section Analyzer.
Context {Element : Type}.
(** [getElementSelector] reads the DOM; it is a parameter here. *)
Variable getElementSelector : Element -> string.

(** The constructor.  In development mode, and when [window] has a
    [PerformanceObserver], [initializeObserver] subscribes; when that throws,
    a warning is written and nothing is observed.  The field [observer]
    tells whether an observer is subscribed, that is, whether the browser
    delivers entries; an observer object left behind by a subscription that
    threw delivers nothing and is counted as none. *)
Definition constructor (NODE_ENV : option string) (support : Support)
    (now : Q) : State Element :=
  let isEnabled := bool_decide (NODE_ENV = Some "development"%string) in
  if isEnabled then
    match support with
    | NoObserver => mkState [] false isEnabled [] now
    | ObserveThrows => mkState [] false isEnabled [WarnObserver] now
    | Observes => mkState [] true isEnabled [] now
    end
  else mkState [] false isEnabled [] now.

Definition getTotalScore (st : State Element) : Q * State Element :=
  let now := now st in
  let windowShifts :=
    List.filter (fun shift => Qle_bool (now - timestamp shift) 5000)
                (shifts st) in
  (fold_left (fun total shift => total + score shift) windowShifts 0, st).

Definition sourceLines (index : nat) (source : LayoutShiftSource Element)
    : list ConsoleLine :=
  let prev := previousRect source in
  let current := currentRect source in
  [ LogSource (index + 1) (getElementSelector (node source));
    LogPrevious prev;
    LogCurrent current;
    LogMovement (x current - x prev) (y current - y prev)
                (width current - width prev)
                (height current - height prev) ].

Definition logLayoutShift (detail : LayoutShiftDetail Element)
    (st : State Element) : State Element :=
  let severity := getShiftSeverity (score detail) in
  let color := severityColor severity in
  let lines :=
    [GroupShift color (score detail) severity;
     LogTimestamp (timestamp detail)]
    ++ (if bool_decide (0 < length (sources detail))%nat
        then LogAffected :: mjoin (imap sourceLines (sources detail))
        else [])
    ++ [GroupEnd] in
  let st1 :=
    mkState (shifts st) (observer st) (isEnabled st)
            (console st ++ lines) (now st) in
  let '(totalScore, st2) := getTotalScore st1 in
  if Qgtb totalScore 0.1
  then mkState (shifts st2) (observer st2) (isEnabled st2)
               (console st2 ++ [WarnTotal totalScore]) (now st2)
  else st2.

(** The body of the loop of the observer callback, for one entry. *)
Definition handleEntry (entry : PerformanceEntry Element)
    (st : State Element) : State Element :=
  if String.eqb (entryType entry) "layout-shift" then
    if entryHadRecentInput entry then st
    else
      let detail :=
        mkDetail (value entry) (startTime entry)
                 (default [] (entrySources entry))
                 (entryHadRecentInput entry) in
      let st1 :=
        mkState (shifts st ++ [detail]) (observer st) (isEnabled st)
                (console st) (now st) in
      logLayoutShift detail st1
  else st.

(** The observer callback: [for (const entry of list.getEntries())]. *)
Definition callback (entries : list (PerformanceEntry Element))
    (st : State Element) : State Element :=
  fold_left (fun st entry => handleEntry entry st) entries st.

Definition getShiftsByElement (st : State Element)
    : list (string * StatsAvg) * State Element :=
  let elementStats :=
    fold_left
      (fun stats shift =>
         fold_left
           (fun stats source =>
              addShift (getElementSelector (node source)) (score shift)
                       stats)
           (sources shift) stats)
      (shifts st) [] in
  (map (fun '(selector, stats) =>
          (selector,
           mkStatsAvg (count stats) (totalScore stats)
             (totalScore stats / inject_Z (Z.of_nat (count stats)))))
       elementStats,
   st).

(** [Object.entries(elementStats).sort(...).slice(0, 10)] of [printReport] *)
Definition sortedElements (st : State Element) : list (string * StatsAvg) :=
  take 10 (sort byTotalDesc (fst (getShiftsByElement st))).

Definition elementLines (index : nat) (e : string * StatsAvg)
    : list ConsoleLine :=
  [ LogElement (index + 1) (elementSeverity (snd e)) (fst e);
    LogElementStats (count' (snd e)) (totalScore' (snd e))
                    (avgScore (snd e)) ].

Definition printReport (st : State Element) : State Element :=
  if negb (isEnabled st) then st
  else
    let '(totalScore, st1) := getTotalScore st in
    let color := totalColor totalScore in
    let '(elementStats, st2) := getShiftsByElement st1 in
    let sortedElements := take 10 (sort byTotalDesc elementStats) in
    let lines :=
      [GroupReport; LogTotal color totalScore]
      ++ (if bool_decide (0 < length sortedElements)%nat
          then LogTop :: mjoin (imap elementLines sortedElements)
          else [])
      ++ [GroupEnd] in
    mkState (shifts st2) (observer st2) (isEnabled st2)
            (console st2 ++ lines) (now st2).

Definition clear (st : State Element) : State Element :=
  mkState [] (observer st) (isEnabled st) (console st) (now st).

Definition destroy (st : State Element) : State Element :=
  if observer st
  then mkState (shifts st) false (isEnabled st) (console st) (now st)
  else st.

(** What can happen to the analyzer: the browser delivers a batch of
    entries to a connected observer, time passes, or a method is called. *)
Inductive Event : Type :=
  | Deliver (entries : list (PerformanceEntry Element))
  | TimePasses (t : Q)
  | CallGetTotalScore
  | CallGetShiftsByElement
  | CallPrintReport
  | CallClear
  | CallDestroy.

Definition step (st : State Element) (ev : Event) : State Element :=
  match ev with
  | Deliver entries => if observer st then callback entries st else st
  | TimePasses t =>
      mkState (shifts st) (observer st) (isEnabled st) (console st) t
  | CallGetTotalScore => snd (getTotalScore st)
  | CallGetShiftsByElement => snd (getShiftsByElement st)
  | CallPrintReport => printReport st
  | CallClear => clear st
  | CallDestroy => destroy st
  end.

Definition run (st : State Element) (evs : list Event) : State Element :=
  fold_left step evs st.

End Analyzer.

(** The sum the specification asks of [getTotalScore]: over the whole
    sequence, a record older than [now - 5000] counts for nothing and every
    other record counts for its score. *)
Definition windowSum {Element : Type} (now : Q)
    (shifts : list (LayoutShiftDetail Element)) : Q :=
  foldr (fun shift acc =>
           (if Qltb (timestamp shift) (now - 5000) then 0 else score shift)
           + acc)
        0 shifts.

(** The record the callback stores for an entry, and the entries it stores a
    record for. *)
Definition detailOf {Element : Type} (entry : PerformanceEntry Element)
    : LayoutShiftDetail Element :=
  mkDetail (value entry) (startTime entry) (default [] (entrySources entry))
           (entryHadRecentInput entry).

Definition stored {Element : Type} (entry : PerformanceEntry Element) : bool :=
  String.eqb (entryType entry) "layout-shift"
  && negb (entryHadRecentInput entry).

(** [a] may stand before [b] in a list in descending order of total
    score. *)
Definition descTotal (a b : string * StatsAvg) : Prop :=
  totalScore' (snd b) <= totalScore' (snd a).

(** An analyzer in development mode, with elements named by their selector,
    that has stored a single shift of score 0.1 on the element [div]. *)
Definition rect0 : DOMRect := {| x := 0; y := 0; width := 0; height := 0 |}.
Definition boundaryState : State string :=
  mkState [mkDetail 0.1 0 [mkSource "div"%string rect0 rect0] false]
          true true [] 0.

End LayoutShift.

(** ** [getTotalScore] on binary64 numbers (layoutShift.ts)

    [performance.now()], [entry.startTime] and [entry.value] are doubles and
    [now - shift.timestamp] is rounded to the nearest double before it is
    compared with [5000].  Here the method is written with the primitive
    floating-point numbers of Rocq, which are the IEEE 754 binary64 numbers
    with rounding to nearest, ties to even, as in JavaScript. *)

From Stdlib Require PrimFloat.

Module LayoutShiftDouble.
Import PrimFloat.

(** [interface LayoutShiftDetail], its numbers as doubles. *)
Record LayoutShiftDetail (Source : Type) : Type := mkDetail {
  score : float;
  timestamp : float;
  sources : list Source;
  hadRecentInput : bool;
}.
Arguments mkDetail {Source}.
Arguments score {Source}.
Arguments timestamp {Source}.
Arguments sources {Source}.
Arguments hadRecentInput {Source}.

(** [shift => now - shift.timestamp <= 5000] *)
Definition inWindow {Source : Type} (now : float)
    (shift : LayoutShiftDetail Source) : bool :=
  (now - timestamp shift <=? 5000)%float.

(** [getTotalScore], given the reading [now] of the clock; the second
    component is [this.shifts] after the call. *)
Definition getTotalScore {Source : Type} (now : float)
    (shifts : list (LayoutShiftDetail Source))
    : float * list (LayoutShiftDetail Source) :=
  let windowShifts := List.filter (inWindow now) shifts in
  (fold_left (fun total shift => (total + score shift)%float) windowShifts
             0%float,
   shifts).

(** The doubles nearest to [5000.1] and to [0.1], the values of those
    literals in JavaScript, and a record of score [0.5] stored at [0.1]. *)
Definition t5000_1 : float := 0x1.388199999999ap+12%float.
Definition t0_1 : float := 0x1.999999999999ap-4%float.
Definition early : LayoutShiftDetail unit := mkDetail 0.5%float t0_1 [] false.

End LayoutShiftDouble.

(** ** A JavaScript [Map] with string keys, in insertion order *)

Module JsMap.

Definition t (V : Type) : Type := list (string * V).

Definition get {V} (k : string) (m : t V) : option V :=
  snd <$> List.find (fun e => String.eqb (fst e) k) m.

Definition has {V} (k : string) (m : t V) : bool :=
  bool_decide (is_Some (get k m)).

(** [set] keeps the position of a key that is present and appends a new
    one. *)
Fixpoint set {V} (k : string) (v : V) (m : t V) : t V :=
  match m with
  | [] => [(k, v)]
  | (k', v') :: m' =>
      if String.eqb k' k then (k', v) :: m' else (k', v') :: set k v m'
  end.

Fixpoint delete {V} (k : string) (m : t V) : t V :=
  match m with
  | [] => []
  | (k', v') :: m' =>
      if String.eqb k' k then m' else (k', v') :: delete k m'
  end.

Definition size {V} (m : t V) : nat := length m.

(** [m.keys().next().value]: [None] stands for [undefined]. *)
Definition firstKey {V} (m : t V) : option string := fst <$> head m.

Definition keys {V} (m : t V) : list string := fst <$> m.

End JsMap.

(** ** The image worker registry and the image cache (useWorkerImage.ts) *)

Module WorkerImage.

(** *** The pending-task registry *)

Inductive PromiseState : Type :=
  | Pending
  | Settled (s : Settlement string).

(** A callback registered by [setTimeout(..., 10000)]: it closes over
    [cacheKey] and over the [reject] of the promise [task]. *)
Record Timer : Type := mkTimer {
  due : Q;
  timerKey : string;
  timerTask : nat;
}.

(** The [data] of a message of the worker: [{dataUrl, cacheKey}] or
    [{error, cacheKey}]. *)
Inductive WorkerData : Type :=
  | WithDataUrl (dataUrl : string) (cacheKey : string)
  | WithError (error : string) (cacheKey : string).

Definition dataCacheKey (data : WorkerData) : string :=
  match data with
  | WithDataUrl _ k => k
  | WithError _ k => k
  end.

Record MessageEvent : Type := mkMessage {
  type : string;
  data : WorkerData;
}.

(** The module-level state and the event loop around it.  A promise is
    named by its index in [promises]; an entry of [pendingTasks] holds the
    [resolve] and [reject] of one promise, that is, its index. *)
Record State : Type := mkState {
  imageWorker : bool;
  pendingTasks : gmap string nat;
  promises : list PromiseState;
  posted : list string;
  timers : list Timer;
  now : Q;
}.

(** [resolve] and [reject] act on a pending promise only. *)
Definition settle (task : nat) (s : Settlement string) (st : State) : State :=
  match promises st !! task with
  | Some Pending =>
      mkState (imageWorker st) (pendingTasks st)
              (<[task := Settled s]> (promises st))
              (posted st) (timers st) (now st)
  | _ => st
  end.

Definition withPendingTasks (m : gmap string nat) (st : State) : State :=
  mkState (imageWorker st) m (promises st) (posted st) (timers st) (now st).

(** [imageWorker.onmessage] *)
Definition onmessage (e : MessageEvent) (st : State) : State :=
  if String.eqb (type e) "IMAGE_PROCESSED" then
    let cacheKey := dataCacheKey (data e) in
    match pendingTasks st !! cacheKey with
    | Some task =>
        let st1 := withPendingTasks (delete cacheKey (pendingTasks st)) st in
        match data e with
        | WithError error _ => settle task (Rejected (AError error)) st1
        | WithDataUrl dataUrl _ => settle task (Fulfilled dataUrl) st1
        end
    | None => st
    end
  else st.

(** The timeout of the source, in milliseconds. *)
Definition timeout : Q := 10000.

(** [processImageWithWorker]: the executor of the new promise runs at
    once; the index of the promise is returned. *)
Definition processImageWithWorker (cacheKey : string) (st : State)
    : nat * State :=
  let task := length (promises st) in
  let st0 :=
    mkState (imageWorker st) (pendingTasks st) (promises st ++ [Pending])
            (posted st) (timers st) (now st) in
  if negb (imageWorker st) then
    (task, settle task (Rejected (AError "Worker not available")) st0)
  else
    (task,
     mkState (imageWorker st0)
             (<[cacheKey := task]> (pendingTasks st0))
             (promises st0)
             (posted st0 ++ [cacheKey])
             (timers st0 ++ [mkTimer (now st0 + timeout) cacheKey task])
             (now st0)).

(** The callback given to [setTimeout]. *)
Definition onTimeout (tm : Timer) (st : State) : State :=
  if bool_decide (is_Some (pendingTasks st !! timerKey tm)) then
    settle (timerTask tm) (Rejected (AError "Worker processing timeout"))
           (withPendingTasks (delete (timerKey tm) (pendingTasks st)) st)
  else st.

(** Time passes up to [t]: the timers due by then run, oldest first. *)
Definition advanceTo (t : Q) (st : State) : State :=
  if Qle_bool (now st) t then
    let dueNow := List.filter (fun tm => Qle_bool (due tm) t) (timers st) in
    let later :=
      List.filter (fun tm => negb (Qle_bool (due tm) t)) (timers st) in
    fold_left (fun st tm => onTimeout tm st) dueNow
      (mkState (imageWorker st) (pendingTasks st) (promises st) (posted st)
               later t)
  else st.

Inductive Event : Type :=
  | Call (cacheKey : string)
  | Message (e : MessageEvent)
  | AdvanceTo (t : Q).

Definition step (st : State) (ev : Event) : State :=
  match ev with
  | Call cacheKey => snd (processImageWithWorker cacheKey st)
  | Message e => onmessage e st
  | AdvanceTo t => advanceTo t st
  end.

Definition run (st : State) (evs : list Event) : State :=
  fold_left step evs st.

(** The state once [initWorker] has created the worker. *)
Definition initial : State := mkState true ∅ [] [] [] 0.

(** A task no callback can reach any more: it is pending, no registry entry
    holds its [resolve]/[reject] and no timer holds its [reject]. *)
Definition orphaned (task : nat) (st : State) : Prop :=
  promises st !! task = Some Pending
  /\ (forall k, pendingTasks st !! k <> Some task)
  /\ Forall (fun tm => timerTask tm <> task) (timers st).

(** A task that has been resolved or rejected. *)
Definition settled (task : nat) (st : State) : Prop :=
  exists s, promises st !! task = Some (Settled s).

(** The task is settled, or it is pending and still registered under [k]. *)
Definition registered (k : string) (task : nat) (st : State) : Prop :=
  settled task st
  \/ (promises st !! task = Some Pending /\ pendingTasks st !! k = Some task).

(** A task waiting under the key [k]: the registry maps [k] to it, its timer
    is set for [due], no other timer closes over [k], and [due] lies
    ahead. *)
Definition awaiting (k : string) (task : nat) (due : Q) (st : State) : Prop :=
  promises st !! task = Some Pending
  /\ pendingTasks st !! k = Some task
  /\ In (mkTimer due k task) (timers st)
  /\ Forall (fun tm => timerKey tm = k -> tm = mkTimer due k task) (timers st)
  /\ now st < due.

(** Two calls of [processImageWithWorker] with the same cache key, 5 seconds
    apart: with a worker that never answers, and with a worker that answers
    both requests after the second call. *)
Definition reply (dataUrl : string) : MessageEvent :=
  mkMessage "IMAGE_PROCESSED" (WithDataUrl dataUrl "k").

Definition silentWorker : list Event :=
  [Call "k"; AdvanceTo 5000; Call "k"; AdvanceTo 20000].

Definition answeringWorker : list Event :=
  [Call "k"; AdvanceTo 5000; Call "k"; AdvanceTo 6000; Message (reply "url1");
   AdvanceTo 7000; Message (reply "url2"); AdvanceTo 20000].

(** *** The image cache *)

Inductive Format : Type := jpg | webp.

Definition formatName (format : Format) : string :=
  match format with jpg => "jpg" | webp => "webp" end.

(** The properties of the hook that enter the cache key. *)
Record Props : Type := mkProps {
  height : Q;
  imageId : string;
  width : Q;
  quality : Q;
  format : Format;
}.

(** Truthiness of [firstKey], a string or [undefined]. *)
Definition truthy (k : option string) : bool :=
  match k with
  | Some s => negb (String.eqb s "")
  | None => false
  end.

(** The cache update at the end of the callback of the hook. *)
Definition storeInCache (cacheKey dataUrl : string)
    (imageCache : JsMap.t string) : JsMap.t string :=
  let imageCache1 :=
    if (100 <=? JsMap.size imageCache)%nat then
      let firstKey := JsMap.firstKey imageCache in
      if truthy firstKey
      then JsMap.delete (default ""%string firstKey) imageCache
      else imageCache
    else imageCache in
  JsMap.set cacheKey dataUrl imageCache1.

Section Hook.
(** How a number is printed inside a template literal. *)
Variable numberToString : Q -> string.

(** The template literal that joins [imageId], [width], [height],
    [quality] and [format] with dashes. *)
Definition cacheKey (p : Props) : string :=
  (imageId p ++ "-" ++ numberToString (width p) ++ "-"
     ++ numberToString (height p) ++ "-" ++ numberToString (quality p)
     ++ "-" ++ formatName (format p))%string.

(** The callback given to [useAsync].  [processing] is the function
    handed to [measureAsync] up to the point where [dataUrl] is known; the
    cache it returns is the one found at that point. *)
Definition useWorkerImageCallback (p : Props)
    (processing : JsMap.t string -> Settlement string * JsMap.t string)
    (imageCache : JsMap.t string)
    : Settlement string * JsMap.t string :=
  let cacheKey := cacheKey p in
  if JsMap.has cacheKey imageCache then
    (Fulfilled (default ""%string (JsMap.get cacheKey imageCache)),
     imageCache)
  else
    match processing imageCache with
    | (Fulfilled dataUrl, imageCache') =>
        (Fulfilled dataUrl, storeInCache cacheKey dataUrl imageCache')
    | (Rejected error, imageCache') => (Rejected error, imageCache')
    end.

(** The caches the hook can produce: the empty one, and any cache it has
    stored into. *)
Inductive reachable : JsMap.t string -> Prop :=
  | reachable_empty : reachable []
  | reachable_store p dataUrl imageCache :
      reachable imageCache ->
      reachable (storeInCache (cacheKey p) dataUrl imageCache).

End Hook.

(** A way to print numbers that is good enough to run the hook, and the
    properties of one image. *)
Definition printUnit (q : Q) : string := "1".
Definition cover : Props := mkProps 1 "cover" 1 1 jpg.

End WorkerImage.

(** * Further definitions: more of the same source files *)

From Stdlib Require Import Qabs.

(** ** More of [PerformanceLogger]: the report (logger.ts) *)

Module TrackerReport.
Import Tracker.

(** [getReport()]: the records whose [duration] is set.  The array of the
    source is kept as the finite map from the name to its record, that is,
    without the order of its elements. *)
Definition getReport {App : Type} (w : World App)
    : gmap string PerformanceData :=
  filter (fun entry => is_Some (duration (snd entry))) (measurements w).

(** A function that returns normally and an asynchronous one whose promise
    fulfils, both leaving the world alone. *)
Definition returnUnit (w : World unit) : Completion unit * World unit :=
  (Returned tt, w).
Definition fulfilUnit (w : World unit)
    : Completion (Promise (App:=unit) unit) * World unit :=
  (Returned (fun w' => (Fulfilled tt, w')), w).



End TrackerReport.

(** ** [WebVitalsLogger] (logger.ts): history, observer and latest metrics *)

Module VitalsLogger.
Import Vitals.

(** [interface WebVitalsMetric] *)
Record WebVitalsMetric : Type := mkMetric {
  name : string;
  value : Q;
  rating : Rating;
  timestamp : Q;
}.

(** An entry handed to the observer callback: [startTime] for every entry,
    [processingStart] for a first-input entry, [value] and [hadRecentInput]
    for a layout-shift entry. *)
Record PerformanceEntry : Type := mkEntry {
  entryType : string;
  startTime : Q;
  processingStart : Q;
  entryValue : Q;
  hadRecentInput : bool;
}.

(** A navigation-timing entry. *)
Record NavigationTiming : Type := mkNavigation {
  responseStart : Q;
  requestStart : Q;
}.

(** The lines the logger writes to the console. *)
Inductive ConsoleLine : Type :=
  | LogMetric (color : Color) (name : string) (value : Q) (rating : Rating)
  | WarnObserver.

(** The logger with the wall clock behind [Date.now()] and the console. *)
Record State : Type := mkState {
  metrics : list WebVitalsMetric;
  observer : bool;
  console : list ConsoleLine;
  dateNow : Q;
}.

(** [rating === 'good' ? green
     : rating === 'needs-improvement' ? yellow : red] *)
Definition ratingColor (rating : Rating) : Color :=
  match rating with
  | good => Green
  | needs_improvement => Yellow
  | poor => Red
  end.

Definition recordMetric (name : string) (value : Q) (rating : Rating)
    (st : State) : State :=
  let metric := mkMetric name value rating (dateNow st) in
  mkState (metrics st ++ [metric]) (observer st)
          (console st ++ [LogMetric (ratingColor rating) name value rating])
          (dateNow st).

(** The body of the loop of the observer callback, for one entry. *)
Definition handleEntry (entry : PerformanceEntry) (st : State) : State :=
  if String.eqb (entryType entry) "largest-contentful-paint" then
    recordMetric "LCP" (startTime entry) (getLCPRating (startTime entry)) st
  else if String.eqb (entryType entry) "first-input" then
    let fid := processingStart entry - startTime entry in
    recordMetric "FID" fid (getFIDRating fid) st
  else if String.eqb (entryType entry) "layout-shift"
          && negb (hadRecentInput entry) then
    recordMetric "CLS" (entryValue entry) (getCLSRating (entryValue entry)) st
  else st.

Definition callback (entries : list PerformanceEntry) (st : State) : State :=
  fold_left (fun st entry => handleEntry entry st) entries st.

(** [measureInitialMetrics]: [fcpEntries] is
    [performance.getEntriesByName('first-contentful-paint')] and
    [navigationEntries] is [performance.getEntriesByType('navigation')]. *)
Definition measureInitialMetrics (fcpEntries : list PerformanceEntry)
    (navigationEntries : list NavigationTiming) (st : State) : State :=
  let st1 :=
    match fcpEntries with
    | first :: _ =>
        let fcp := startTime first in
        recordMetric "FCP" fcp (getFCPRating fcp) st
    | [] => st
    end in
  match navigationEntries with
  | first :: _ =>
      let ttfb := responseStart first - requestStart first in
      recordMetric "TTFB" ttfb (getTTFBRating ttfb) st1
  | [] => st1
  end.

(** What the browser offers: no [window] or no [PerformanceObserver], an
    observer whose subscription throws, or one that observes. *)
Inductive Support : Type := NoObserver | ObserveThrows | Observes.

(** The constructor; it does not look at the mode.  As in [LayoutShift], the
    field [observer] tells whether an observer is subscribed. *)
Definition constructor (support : Support)
    (fcpEntries : list PerformanceEntry)
    (navigationEntries : list NavigationTiming) (dateNow : Q) : State :=
  match support with
  | NoObserver => mkState [] false [] dateNow
  | ObserveThrows =>
      measureInitialMetrics fcpEntries navigationEntries
        (mkState [] false [WarnObserver] dateNow)
  | Observes =>
      measureInitialMetrics fcpEntries navigationEntries
        (mkState [] true [] dateNow)
  end.

(** [getMetrics()]: a copy of the history. *)
Definition getMetrics (st : State) : list WebVitalsMetric := metrics st.

(** [getLatestMetrics()]: the object [latest], with its keys in insertion
    order.  The names recorded are LCP, FID, CLS, FCP and TTFB, none of which
    is a property inherited from [Object.prototype]. *)
Definition getLatestMetrics (st : State) : JsMap.t WebVitalsMetric :=
  fold_left
    (fun latest metric =>
       match JsMap.get (name metric) latest with
       | None => JsMap.set (name metric) metric latest
       | Some current =>
           if Qgtb (timestamp metric) (timestamp current)
           then JsMap.set (name metric) metric latest
           else latest
       end)
    (metrics st) [].

Definition clear (st : State) : State :=
  mkState [] (observer st) (console st) (dateNow st).

Definition destroy (st : State) : State :=
  if observer st
  then mkState (metrics st) false (console st) (dateNow st)
  else st.

Inductive Event : Type :=
  | Deliver (entries : list PerformanceEntry)
  | TimePasses (t : Q)
  | CallClear
  | CallDestroy.

Definition step (st : State) (ev : Event) : State :=
  match ev with
  | Deliver entries => if observer st then callback entries st else st
  | TimePasses t => mkState (metrics st) (observer st) (console st) t
  | CallClear => clear st
  | CallDestroy => destroy st
  end.

Definition run (st : State) (evs : list Event) : State :=
  fold_left step evs st.

(** The rating method that belongs to a metric name. *)
Definition ratingOf (name : string) (value : Q) : option Rating :=
  if String.eqb name "LCP" then Some (getLCPRating value)
  else if String.eqb name "FID" then Some (getFIDRating value)
  else if String.eqb name "CLS" then Some (getCLSRating value)
  else if String.eqb name "FCP" then Some (getFCPRating value)
  else if String.eqb name "TTFB" then Some (getTTFBRating value)
  else None.

(** The metric the callback records for an entry, if any, but for its
    timestamp. *)
Definition metricOf (entry : PerformanceEntry) : option (string * Q) :=
  if String.eqb (entryType entry) "largest-contentful-paint" then
    Some ("LCP"%string, startTime entry)
  else if String.eqb (entryType entry) "first-input" then
    Some ("FID"%string, processingStart entry - startTime entry)
  else if String.eqb (entryType entry) "layout-shift"
          && negb (hadRecentInput entry) then
    Some ("CLS"%string, entryValue entry)
  else None.

(** A metric carries the rating its own method gives to its value. *)
Definition consistent (m : WebVitalsMetric) : Prop :=
  ratingOf (name m) (value m) = Some (rating m).

End VitalsLogger.

(** ** More of [LayoutShiftAnalyzer]: what the table of elements counts *)

Module LayoutShiftTable.
Import LayoutShift.



(** [0 + s1 + s2 + ...], added from the left. *)
Definition sumQ (scores : list Q) : Q := fold_left Qplus scores 0.


(** The sum of all stored scores. *)
Definition sumAll {Element : Type} (shifts : list (LayoutShiftDetail Element))
    : Q :=
  foldr (fun shift acc => score shift + acc) 0 shifts.

End LayoutShiftTable.

(** ** More of the image worker registry: what every run keeps *)

Module RegistryInvariant.
Import WorkerImage.

(** The worker exists; no two outstanding timers belong to one task; every
    outstanding timer belongs to a promise that exists and is due after now
    and at most a timeout from now; every registry entry holds a pending
    promise whose own timer is outstanding. *)
Definition registryInv (st : State) : Prop :=
  imageWorker st = true
  /\ NoDup (map timerTask (timers st))
  /\ Forall (fun tm => (timerTask tm < length (promises st))%nat
                       /\ now st < due tm /\ due tm <= now st + timeout)
            (timers st)
  /\ forall k task,
       pendingTasks st !! k = Some task ->
       promises st !! task = Some Pending
       /\ exists d, In (mkTimer d k task) (timers st).

End RegistryInvariant.

(** ** The image caches of the hooks (useImage.ts, useWorkerImage.ts) *)

Module ImageCaches.

(** The cache update shared by the hooks, for a cache of at most [limit]
    entries: 50 in [useImage], 100 in [useOptimizedImage] and
    [useWorkerImage]. *)
Definition storeUpTo (limit : nat) (cacheKey dataUrl : string)
    (imageCache : JsMap.t string) : JsMap.t string :=
  let imageCache1 :=
    if (limit <=? JsMap.size imageCache)%nat then
      let firstKey := JsMap.firstKey imageCache in
      if WorkerImage.truthy firstKey
      then JsMap.delete (default ""%string firstKey) imageCache
      else imageCache
    else imageCache in
  JsMap.set cacheKey dataUrl imageCache1.

(** The key that is dropped by a store, if any. *)
Definition evicted (limit : nat) (imageCache : JsMap.t string)
    : option string :=
  if (limit <=? JsMap.size imageCache)%nat then JsMap.firstKey imageCache
  else None.

(** The cache that the new entry is set into: the old one without its
    first entry when it was full. *)
Definition afterEviction (limit : nat) (imageCache : JsMap.t string)
    : JsMap.t string :=
  if (limit <=? JsMap.size imageCache)%nat then tail imageCache
  else imageCache.

(** A cache whose keys are distinct and are not empty strings. *)
Definition wellFormed (imageCache : JsMap.t string) : Prop :=
  NoDup (JsMap.keys imageCache)
  /\ Forall (fun k => k <> ""%string) (JsMap.keys imageCache).

Section UseImage.
(** How a number is printed inside a template literal. *)
Variable numberToString : Q -> string.

(** The cache key of [useImage]: [imageId], [width] and [height] joined with
    dashes. *)
Definition useImageKey (imageId : string) (width height : Q) : string :=
  (imageId ++ "-" ++ numberToString width ++ "-"
     ++ numberToString height)%string.

(** The caches [useImage] can produce. *)
Inductive reachable50 : JsMap.t string -> Prop :=
  | reachable50_empty : reachable50 []
  | reachable50_store imageId width height dataUrl imageCache :
      reachable50 imageCache ->
      reachable50
        (storeUpTo 50 (useImageKey imageId width height) dataUrl imageCache).

End UseImage.

End ImageCaches.

(** ** The comic viewer (ComicViewerPage.tsx): scroll snapping *)

Module ComicViewer.

(** What [getBoundingClientRect()] gives and the loop reads. *)
Record ClientRect : Type := mkRect {
  bottom : Q;
  left : Q;
  right : Q;
  top : Q;
}.

(** [Number.MAX_SAFE_INTEGER] *)
Definition MAX_SAFE_INTEGER : Q := 9007199254740991.

(** The body of the loop of [getScrollToLeft] up to
    [candidateScrollToLeft], for the child at index [idx]. *)
Definition candidateScrollToLeft (pageCountParView : nat) (pageWidth : Q)
    (scrollViewCenterX : Q) (idx : nat) (elementClientRect : ClientRect) : Q :=
  let nthChild := (idx + 1)%nat in
  let scrollMargin :=
    if (pageCountParView =? 2)%nat then
      (if (nthChild mod 2 =? 0)%nat then pageWidth else 0,
       if (nthChild mod 2 =? 1)%nat then pageWidth else 0)
    else (0, 0) in
  let areaClientRect :=
    mkRect (bottom elementClientRect)
           (left elementClientRect - fst scrollMargin)
           (right elementClientRect + snd scrollMargin)
           (top elementClientRect) in
  let areaCenterX := (left areaClientRect + right areaClientRect) / 2 in
  areaCenterX - scrollViewCenterX.

(** The loop of [getScrollToLeft]: [children] holds the rectangles of the
    children of the scroll view, in order. *)
Definition scrollToLeftOf (pageCountParView : nat) (pageWidth : Q)
    (scrollViewClientRect : ClientRect) (children : list ClientRect) : Q :=
  let scrollViewCenterX :=
    (left scrollViewClientRect + right scrollViewClientRect) / 2 in
  fold_left
    (fun scrollToLeft candidate =>
       if Qltb (Qabs candidate) (Qabs scrollToLeft) then candidate
       else scrollToLeft)
    (imap (candidateScrollToLeft pageCountParView pageWidth scrollViewCenterX)
          children)
    MAX_SAFE_INTEGER.

(** [getScrollToLeft]: the loop between [start] and [end] of the logger.
    [metadata] stands for the object given to [end] and [endTime] for the
    time read by [end]. *)
Definition getScrollToLeft {App : Type} (this : Tracker.PerformanceLogger)
    (pageCountParView : nat) (pageWidth : Q)
    (scrollViewClientRect : ClientRect) (children : list ClientRect)
    (metadata : Q -> option (gmap string any)) (endTime : Q)
    (w : Tracker.World App) : Q * Tracker.World App :=
  let w1 := Tracker.start this "getScrollToLeft" None w in
  let scrollToLeft :=
    scrollToLeftOf pageCountParView pageWidth scrollViewClientRect children in
  let '(_, w2) :=
    Tracker.end_ this "getScrollToLeft" (metadata scrollToLeft)
                 (Tracker.at_time endTime w1) in
  (scrollToLeft, w2).

End ComicViewer.

(** ** [useStatePerformance] (hooks.ts) *)

Module Hooks.
Import Tracker.

(** The logger's world together with the callbacks that [setTimeout(..., 0)]
    has queued: each one ends the interval of the name it closes over. *)
Record Loop (App : Type) : Type := mkLoop {
  world : World App;
  timeouts : list string;
}.
Arguments mkLoop {App}.
Arguments world {App}.
Arguments timeouts {App}.

(** [`State Update: ${name}`] *)
Definition intervalName (name : string) : string :=
  ("State Update: " ++ name)%string.

Section SetState.
Context {App : Type}.
Variable this : PerformanceLogger.
(** What [setState(value)] of React does to the application. *)
Variable setState : App -> App.

(** [setStateWithPerformance(value)], called at time [t]. *)
Definition setStateWithPerformance (name : string) (t : Q) (l : Loop App)
    : Loop App :=
  let w1 := start this (intervalName name) None (at_time t (world l)) in
  let w2 :=
    mkWorld (measurements w1) (console w1) (now w1) (setState (app w1)) in
  mkLoop w2 (timeouts l ++ [intervalName name]).

(** The oldest queued callback runs at time [t]; the duration that its [end]
    returns is handed back with the loop. *)
Definition runTimeout (t : Q) (l : Loop App) : option Q * Loop App :=
  match timeouts l with
  | [] => (None, l)
  | name :: rest =>
      let '(duration, w) := end_ this name None (at_time t (world l)) in
      (duration, mkLoop w rest)
  end.

End SetState.

End Hooks.

(** * Part II: properties *)

(** ** Numbers *)

Lemma Qgtb_true (a b : Q) : Qgtb a b = true <-> b < a.
Proof.
  unfold Qgtb. rewrite negb_true_iff, <- not_true_iff_false, Qle_bool_iff.
  split; [apply Qnot_le_lt | apply Qlt_not_le].
Qed.

Lemma Qgtb_false (a b : Q) : Qgtb a b = false <-> a <= b.
Proof. unfold Qgtb. rewrite negb_false_iff. apply Qle_bool_iff. Qed.

Lemma Qltb_true (a b : Q) : Qltb a b = true <-> a < b.
Proof. unfold Qltb. apply (Qgtb_true b a). Qed.

Lemma Qltb_false (a b : Q) : Qltb a b = false <-> b <= a.
Proof. unfold Qltb. apply (Qgtb_false b a). Qed.

Lemma Qle_bool_false (a b : Q) : Qle_bool a b = false <-> b < a.
Proof.
  rewrite <- not_true_iff_false, Qle_bool_iff.
  split; [apply Qnot_le_lt | apply Qlt_not_le].
Qed.

(** ** [PerformanceLogger] *)

Module TrackerFacts.
Import Tracker.

Lemma constructor_development :
  isEnabled (constructor (Some "development"%string)) = true.
Proof. reflexivity. Qed.

Lemma constructor_other (NODE_ENV : option string) :
  NODE_ENV <> Some "development"%string ->
  isEnabled (constructor NODE_ENV) = false.
Proof. intros H. unfold constructor; simpl. by apply bool_decide_eq_false. Qed.

Section Enabled.
Context {App : Type}.
Variable this : PerformanceLogger.
Hypothesis on : isEnabled this = true.

Lemma start_enabled name md (w : World App) :
  start this name md w =
  mkWorld (<[name := mkPerformanceData name (now w) None None md]>
             (measurements w))
          (console w ++ [LogStarted name md]) (now w) (app w).
Proof. unfold start. by rewrite on. Qed.

Lemma end_enabled_some name md (w : World App) m :
  measurements w !! name = Some m ->
  end_ this name md w =
  (Some (now w - startTime m),
   mkWorld
     (<[name := mkPerformanceData (Tracker.name m) (startTime m)
                  (Some (now w)) (Some (now w - startTime m))
                  (metadata m)]> (measurements w))
     (console w ++
        [LogFinished (durationColor (now w - startTime m)) name
           (now w - startTime m) (spread (metadata m) md)])
     (now w) (app w)).
Proof. intros H. unfold end_. by rewrite on, H. Qed.

End Enabled.

(** The text of the error wins over an [error] key given at [start]. *)
Lemma spread_error md (text : string) :
  spread md (errorMetadata text) !! "error"%string = Some (AStr text).
Proof.
  unfold spread, errorMetadata; simpl.
  apply lookup_union_Some_l. apply lookup_singleton_eq.
Qed.

(** After [clear()] no name has a record. *)
Lemma clear_measurements {App : Type} (w : World App) name :
  measurements (clear w) !! name = None.
Proof. unfold clear; simpl. apply lookup_empty. Qed.

(** A record that is already completed is still in the map: a further
    [end] finds it and closes it again. *)
Lemma end_recloses {App : Type} this name md (w : World App) m :
  isEnabled this = true ->
  measurements w !! name = Some m ->
  completed m ->
  fst (end_ this name md w) = Some (now w - startTime m)
  /\ (endTime <$> measurements (snd (end_ this name md w)) !! name)
     = Some (Some (now w)).
Proof.
  intros on H _. rewrite (end_enabled_some this on name md w m H); simpl.
  split; [done |]. by rewrite lookup_insert_eq.
Qed.

(** C1, as amended.  When the logger is enabled and [fn] throws a value [E]
    whose conversion to text yields [text] (for [measureAsync]: [afn] throws
    or rejects with [E]), the caller observes exactly [E].  If a record [m]
    for [name] is in the map at that point, it is closed ([endTime] and
    [duration] set) and keeps the metadata it had; the text of the error is
    not stored on the record, it is only printed, under the key [error], in
    the metadata of the finishing console line.  If no record for [name] is
    in the map at that point, [E] is re-raised all the same, one warning is
    written and no record is created. *)
Theorem measure_rethrows_and_closes {App T : Type} this name
    (fn : World App -> Completion T * World App)
    (afn : World App -> Completion (Promise T) * World App)
    md (w w2 : World App) (E : any) (text : string) :
  isEnabled this = true ->
  errorText E = Returned text ->
  fn (start this name md w) = (Thrown E, w2) ->
  awaitCall afn (start this name md w) = (Rejected E, w2) ->
  fst (measure this name fn md w) = Thrown E
  /\ fst (measureAsync this name afn md w) = Rejected E
  /\ (forall m : PerformanceData,
        measurements w2 !! name = Some m ->
        let closed :=
          mkPerformanceData (Tracker.name m) (startTime m) (Some (now w2))
                            (Some (now w2 - startTime m)) (metadata m) in
        let w3 :=
          mkWorld (<[name := closed]> (measurements w2))
                  (console w2 ++
                     [LogFinished (durationColor (now w2 - startTime m)) name
                        (now w2 - startTime m)
                        (spread (metadata m) (errorMetadata text))])
                  (now w2) (app w2) in
        measure this name fn md w = (Thrown E, w3)
        /\ measureAsync this name afn md w = (Rejected E, w3)
        /\ measurements w3 !! name = Some closed
        /\ completed closed
        /\ metadata closed = metadata m
        /\ spread (metadata m) (errorMetadata text) !! "error"%string
           = Some (AStr text))
  /\ (measurements w2 !! name = None ->
      let w3 :=
        mkWorld (measurements w2) (console w2 ++ [WarnNoMeasurement name])
                (now w2) (app w2) in
      measure this name fn md w = (Thrown E, w3)
      /\ measureAsync this name afn md w = (Rejected E, w3)
      /\ measurements w3 !! name = None).
Proof.
  intros on Htext Hfn Hafn.
  split; [| split; [| split]].
  - unfold measure. rewrite Hfn, Htext.
    by destruct (end_ this name (errorMetadata text) w2).
  - unfold measureAsync. rewrite Hafn, Htext.
    by destruct (end_ this name (errorMetadata text) w2).
  - intros m Hm closed w3.
    split; [| split; [| split; [| split; [| split]]]].
    + unfold measure. rewrite Hfn, Htext.
      by rewrite (end_enabled_some this on name _ w2 m Hm).
    + unfold measureAsync. rewrite Hafn, Htext.
      by rewrite (end_enabled_some this on name _ w2 m Hm).
    + subst w3; simpl. apply lookup_insert_eq.
    + split; by eexists.
    + reflexivity.
    + apply spread_error.
  - intros Hnone w3.
    split; [| split].
    + unfold measure. rewrite Hfn, Htext.
      unfold end_. rewrite on; simpl. by rewrite Hnone.
    + unfold measureAsync. rewrite Hafn, Htext.
      unfold end_. rewrite on; simpl. by rewrite Hnone.
    + exact Hnone.
Qed.

Lemma measure_rethrows_and_closes_witness :
  isEnabled enabled = true
  /\ errorText boom = Returned "boom"%string
  /\ throwBoom (start enabled "op" None w0) = (Thrown boom, started)
  /\ awaitCall rejectBoom (start enabled "op" None w0)
     = (Rejected boom, started)
  /\ measurements started !! "op"%string
     = Some (mkPerformanceData "op" 0 None None None)
  /\ fst (measure enabled "op" throwBoom None w0) = Thrown boom
  /\ fst (measureAsync enabled "op" rejectBoom None w0) = Rejected boom
  /\ metadata
       (mkPerformanceData "op" 0 (Some (now started))
          (Some (now started - 0)) None)
     = None.
Proof.
  assert (H1 : isEnabled enabled = true) by reflexivity.
  assert (H0 : errorText boom = Returned "boom"%string) by reflexivity.
  assert (H2 : throwBoom (start enabled "op" None w0) = (Thrown boom, started))
    by reflexivity.
  assert (H3 : awaitCall rejectBoom (start enabled "op" None w0)
               = (Rejected boom, started)) by reflexivity.
  assert (H4 : measurements started !! "op"%string
               = Some (mkPerformanceData "op" 0 None None None))
    by (vm_compute; reflexivity).
  destruct (measure_rethrows_and_closes enabled "op" throwBoom rejectBoom
              None w0 started boom "boom" H1 H0 H2 H3) as (Hm & Ha & Hrec & _).
  destruct (Hrec _ H4) as (_ & _ & _ & _ & Hmd & _).
  split; [exact H1 |]. split; [exact H0 |]. split; [exact H2 |].
  split; [exact H3 |].
  split; [exact H4 |]. split; [exact Hm |]. split; [exact Ha | exact Hmd].
Defined.

(** C1, as stated, fails: after [measure] of a function that throws, the
    record for the name carries no [error] metadata. *)
Lemma measure_error_metadata_counterexample :
  fst (measure enabled "op" throwBoom None w0) = Thrown boom
  /\ ~ (exists m md,
          measurements (snd (measure enabled "op" throwBoom None w0))
            !! "op"%string = Some m
          /\ metadata m = Some md
          /\ is_Some (md !! "error"%string)).
Proof.
  split; [reflexivity |].
  intros (m & md & Hm & Hmd & _).
  vm_compute in Hm. inversion Hm; subst m. discriminate Hmd.
Qed.

(** C2, as amended.  When the logger is enabled and its map holds no record
    at all for [name], [end(name)] returns [null] (it does not throw), writes
    one warning, and leaves the map as it was: no record is created or
    changed. *)
Theorem end_without_record {App : Type} this name md (w : World App) :
  isEnabled this = true ->
  measurements w !! name = None ->
  end_ this name md w =
    (None,
     mkWorld (measurements w) (console w ++ [WarnNoMeasurement name])
             (now w) (app w)).
Proof. intros on H. unfold end_. rewrite on; simpl. by rewrite H. Qed.

Lemma end_without_record_witness :
  isEnabled enabled = true
  /\ measurements w0 !! "op"%string = None
  /\ end_ enabled "op" None w0
     = (None, mkWorld ∅ [WarnNoMeasurement "op"] 0 tt).
Proof.
  assert (H1 : isEnabled enabled = true) by reflexivity.
  assert (H2 : measurements w0 !! "op"%string = None) by reflexivity.
  split; [exact H1 |]. split; [exact H2 |].
  exact (end_without_record enabled "op" None w0 H1 H2).
Defined.

(** C2, as stated, fails when the record for the name was already completed:
    after [start("op")] at time 0 and [end("op")] at time 10, a second
    [end("op")] at time 25 returns 25 instead of [null], writes no warning and
    moves [endTime] of the record from 10 to 25. *)
Lemma end_after_end_counterexample :
  (exists m, measurements endedOnce !! "op"%string = Some m /\ completed m
             /\ endTime m = Some 10)
  /\ fst (end_ enabled "op" None (at_time 25 endedOnce)) = Some (25 - 0)
  /\ fst (end_ enabled "op" None (at_time 25 endedOnce)) <> None
  /\ (endTime <$>
        measurements (snd (end_ enabled "op" None (at_time 25 endedOnce)))
          !! "op"%string) = Some (Some 25)
  /\ last (console (snd (end_ enabled "op" None (at_time 25 endedOnce))))
     <> Some (WarnNoMeasurement "op").
Proof.
  split; [| split; [| split; [| split]]].
  - eexists. split; [vm_compute; reflexivity |].
    split; [split; by eexists | reflexivity].
  - vm_compute. reflexivity.
  - vm_compute. discriminate.
  - vm_compute. reflexivity.
  - vm_compute. discriminate.
Qed.



(** C3 fails in the code.  In production mode the logger is disabled, and
    yet [measure] of a function that throws [Object.create(null)] does not
    propagate that value: the [catch] block converts the caught value to
    text before [end] can test [isEnabled], the conversion raises a
    [TypeError], and the [TypeError] is what reaches the caller, where a
    direct call of the function would have thrown the value itself.  The
    same holds for [measureAsync] and a promise rejected with that value. *)
Theorem disabled_measure_replaces_error :
  isEnabled disabled = false
  /\ throwBare w0 = (Thrown bare, w0)
  /\ measure disabled "op" throwBare None w0 = (Thrown typeError, w0)
  /\ awaitCall rejectBare w0 = (Rejected bare, w0)
  /\ measureAsync disabled "op" rejectBare None w0 = (Rejected typeError, w0)
  /\ typeError <> bare.
Proof.
  split; [reflexivity |]. split; [reflexivity |]. split; [reflexivity |].
  split; [reflexivity |]. split; [reflexivity |]. discriminate.
Qed.

(** C7, as amended.  With the logger enabled, [start(name, m1)], then
    [start(name, m2)] at time [t2], then [end(name, m3)] at time [t3] leaves
    one record under [name], completed, with [startTime = t2],
    [endTime = t3], [duration = t3 - t2], which [end] returns, and with the
    metadata [m2] of the second start; no other record changes.  The merge of
    [m2] with [m3] is printed on the finishing console line and is not
    stored. *)
Theorem last_start_wins {App : Type} this name m1 m2 m3 (w : World App)
    (t2 t3 : Q) :
  isEnabled this = true ->
  let w1 := start this name m1 w in
  let w2 := start this name m2 (at_time t2 w1) in
  let r := end_ this name m3 (at_time t3 w2) in
  let record := mkPerformanceData name t2 (Some t3) (Some (t3 - t2)) m2 in
  fst r = Some (t3 - t2)
  /\ measurements (snd r) = <[name := record]> (measurements w)
  /\ measurements (snd r) !! name = Some record
  /\ completed record
  /\ console (snd r) =
       console w ++
         [LogStarted name m1; LogStarted name m2;
          LogFinished (durationColor (t3 - t2)) name (t3 - t2)
                      (spread m2 m3)].
Proof.
  intros on w1 w2 r record.
  assert (Hr : r =
    (Some (t3 - t2),
     mkWorld (<[name := record]> (measurements w))
       (console w ++
          [LogStarted name m1; LogStarted name m2;
           LogFinished (durationColor (t3 - t2)) name (t3 - t2)
                       (spread m2 m3)])
       t3 (app w))).
  { subst r w2 w1. rewrite !(start_enabled this on).
    rewrite (end_enabled_some this on name m3 _
               (mkPerformanceData name t2 None None m2)).
    - simpl. rewrite !insert_insert_eq, <- !app_assoc. reflexivity.
    - simpl. apply lookup_insert_eq. }
  rewrite Hr; simpl.
  split; [reflexivity |]. split; [reflexivity |].
  split; [apply lookup_insert_eq |]. split; [split; by eexists | reflexivity].
Qed.

Lemma last_start_wins_witness :
  isEnabled enabled = true
  /\ measurements
       (snd (end_ enabled "op" sampleM3
               (at_time 30
                  (start enabled "op" sampleM2
                     (at_time 20 (start enabled "op" None w0))))))
       !! "op"%string
     = Some (mkPerformanceData "op" 20 (Some 30) (Some (30 - 20)) sampleM2).
Proof.
  assert (H : isEnabled enabled = true) by reflexivity.
  split; [exact H |].
  exact (proj1 (proj2 (proj2
           (last_start_wins enabled "op" None sampleM2 sampleM3 w0 20 30 H)))).
Defined.

(** C7, as stated, fails: the metadata stored on the record after
    [start("op")], [start("op", {a: 1})], [end("op", {b: 2})] is [{a: 1}], not
    the merge [{a: 1, b: 2}]. *)
Lemma merged_metadata_counterexample :
  let final :=
    snd (end_ enabled "op" sampleM3
           (at_time 30
              (start enabled "op" sampleM2
                 (at_time 20 (start enabled "op" None w0))))) in
  (metadata <$> measurements final !! "op"%string) = Some sampleM2
  /\ (metadata <$> measurements final !! "op"%string)
     <> Some (Some (spread sampleM2 sampleM3))
  /\ spread sampleM2 sampleM3 !! "b"%string = Some (AOther "2").
Proof.
  split; [vm_compute; reflexivity |].
  split; [| vm_compute; reflexivity].
  intros H. vm_compute in H. discriminate H.
Qed.

End TrackerFacts.

(** ** Rating functions of [WebVitalsLogger] *)

Module VitalsFacts.
Import Vitals.

(** A cascade [if v <= a then good else if v <= b then needs_improvement else
    poor] with [a <= b] cuts the line into three tiers. *)
Lemma cascade_tiers (a b : Q) :
  a <= b ->
  tiers (fun v => if Qle_bool v a then good
                  else if Qle_bool v b then needs_improvement else poor) a b.
Proof.
  intros Hab v.
  destruct (Qle_bool v a) eqn:Ha; [| destruct (Qle_bool v b) eqn:Hb].
  - apply Qle_bool_iff in Ha.
    repeat split; try discriminate; try tauto; intros; lra.
  - apply Qle_bool_false in Ha. apply Qle_bool_iff in Hb.
    repeat split; try discriminate; try tauto; intros; lra.
  - apply Qle_bool_false in Ha. apply Qle_bool_false in Hb.
    repeat split; try discriminate; try tauto; intros; lra.
Qed.

(** C6.  Each of the five rating methods implements its row of the threshold
    table with inclusive upper bounds: a value is rated good exactly when it
    is at most the first limit, needs-improvement exactly when it is above
    the first and at most the second, and poor exactly when it is above the
    second.  At the four boundary points of the specification: LCP 2500 is
    good, LCP 2500.01 needs improvement, CLS 0.25 needs improvement and CLS
    0.2500001 is poor. *)
Theorem rating_thresholds :
  tiers getLCPRating 2500 4000
  /\ tiers getFIDRating 100 300
  /\ tiers getCLSRating 0.1 0.25
  /\ tiers getFCPRating 1800 3000
  /\ tiers getTTFBRating 800 1800
  /\ getLCPRating 2500 = good
  /\ getLCPRating 2500.01 = needs_improvement
  /\ getCLSRating 0.25 = needs_improvement
  /\ getCLSRating 0.2500001 = poor.
Proof.
  split; [apply (cascade_tiers 2500 4000); lra |].
  split; [apply (cascade_tiers 100 300); lra |].
  split; [apply (cascade_tiers 0.1 0.25); lra |].
  split; [apply (cascade_tiers 1800 3000); lra |].
  split; [apply (cascade_tiers 800 1800); lra |].
  split; [reflexivity |]. split; [reflexivity |]. split; reflexivity.
Qed.

End VitalsFacts.

(** ** [LayoutShiftAnalyzer] *)

Module LayoutShiftFacts.
Import LayoutShift.

Section Window.
Context {Element : Type}.
Implicit Types (st : State Element) (shift : LayoutShiftDetail Element).

(** The test of the source, [now - t <= 5000], says that the record is not
    older than [now - 5000]. *)
Lemma in_window_not_older (now t : Q) :
  Qle_bool (now - t) 5000 = negb (Qltb t (now - 5000)).
Proof.
  unfold Qltb. rewrite negb_involutive.
  destruct (Qle_bool (now - t) 5000) eqn:H1;
    destruct (Qle_bool (now - 5000) t) eqn:H2; try reflexivity.
  - apply Qle_bool_iff in H1. apply Qle_bool_false in H2. lra.
  - apply Qle_bool_iff in H2. apply Qle_bool_false in H1. lra.
Qed.

Lemma fold_window (now : Q) (l : list (LayoutShiftDetail Element)) (a : Q) :
  fold_left (fun total shift => total + score shift)
    (List.filter (fun shift => Qle_bool (now - timestamp shift) 5000) l) a
  == a + windowSum now l.
Proof.
  revert a. induction l as [| shift l IH]; intros a; simpl.
  - lra.
  - rewrite in_window_not_older.
    destruct (Qltb (timestamp shift) (now - 5000)); simpl.
    + rewrite IH. lra.
    + rewrite IH. lra.
Qed.

End Window.

Section Observer.
Context {Element : Type}.
Variable getElementSelector : Element -> string.
Implicit Types (st : State Element) (entry : PerformanceEntry Element).

(** Logging a shift only writes to the console. *)
Lemma logLayoutShift_shifts detail st :
  shifts (logLayoutShift getElementSelector detail st) = shifts st.
Proof.
  unfold logLayoutShift, getTotalScore; simpl.
  match goal with |- context [Qgtb ?a ?b] => destruct (Qgtb a b) end;
    reflexivity.
Qed.

Lemma handleEntry_shifts entry st :
  shifts (handleEntry getElementSelector entry st) =
  shifts st ++ (if stored entry then [detailOf entry] else []).
Proof.
  unfold handleEntry, stored.
  destruct (String.eqb (entryType entry) "layout-shift"); simpl;
    [| by rewrite app_nil_r].
  destruct (entryHadRecentInput entry) eqn:Hrecent; simpl;
    [by rewrite app_nil_r |].
  rewrite logLayoutShift_shifts; simpl.
  unfold detailOf. by rewrite Hrecent.
Qed.

Lemma callback_shifts entries st :
  shifts (callback getElementSelector entries st) =
  shifts st ++ map detailOf (List.filter stored entries).
Proof.
  unfold callback. revert st.
  induction entries as [| entry entries IH]; intros st; simpl.
  - by rewrite app_nil_r.
  - rewrite IH, handleEntry_shifts.
    destruct (stored entry); simpl; by rewrite <- app_assoc.
Qed.

Lemma stored_not_recent entry :
  stored entry = true -> hadRecentInput (detailOf entry) = false.
Proof.
  unfold stored, detailOf; simpl. intros H.
  apply andb_true_iff in H as [_ H]. by apply negb_true_iff in H.
Qed.

(** No event gives the analyzer a record with [hadRecentInput = true]. *)
Lemma step_no_recent st (ev : Event) :
  Forall (fun d => hadRecentInput d = false) (shifts st) ->
  Forall (fun d => hadRecentInput d = false)
         (shifts (step getElementSelector st ev)).
Proof.
  intros Hst. destruct ev as [entries | t | | | | |]; simpl; try exact Hst.
  - destruct (observer st); [| exact Hst].
    rewrite callback_shifts. apply Forall_app; split; [exact Hst |].
    apply List.Forall_forall. intros d Hd.
    apply in_map_iff in Hd as (entry & <- & Hentry).
    apply filter_In in Hentry as [_ Hentry]. by apply stored_not_recent.
  - unfold printReport.
    destruct (negb (isEnabled st)); [exact Hst | simpl; exact Hst].
  - constructor.
  - unfold destroy. destruct (observer st); exact Hst.
Qed.

Lemma run_no_recent st (evs : list Event) :
  Forall (fun d => hadRecentInput d = false) (shifts st) ->
  Forall (fun d => hadRecentInput d = false)
         (shifts (run getElementSelector st evs)).
Proof.
  unfold run. revert st.
  induction evs as [| ev evs IH]; intros st Hst; simpl; [exact Hst |].
  apply IH. by apply step_no_recent.
Qed.

(** C5.  An entry with [hadRecentInput = true] leaves the analyzer as it
    was, so the number of stored records is the same before and after.  A
    batch of entries appends one record for each layout-shift entry without
    recent input and nothing else, and whatever happens to an analyzer after
    its construction, every record it stores has [hadRecentInput = false]. *)
Theorem recent_input_never_stored :
  (forall type t v srcs st,
     handleEntry getElementSelector (mkEntry type t v srcs true) st = st
     /\ callback getElementSelector [mkEntry type t v srcs true] st = st
     /\ length (shifts (callback getElementSelector
                          [mkEntry type t v srcs true] st))
        = length (shifts st))
  /\ (forall entries st,
        shifts (callback getElementSelector entries st) =
        shifts st ++ map detailOf (List.filter stored entries))
  /\ (forall NODE_ENV support t0 (evs : list Event),
        Forall (fun d => hadRecentInput d = false)
               (shifts (run getElementSelector
                            (constructor NODE_ENV support t0) evs))).
Proof.
  split; [| split].
  - intros type t v srcs st.
    assert (H : handleEntry getElementSelector (mkEntry type t v srcs true) st
                = st).
    { unfold handleEntry; simpl. by destruct (String.eqb type "layout-shift"). }
    split; [exact H |]. unfold callback; simpl. rewrite H. by split.
  - apply callback_shifts.
  - intros NODE_ENV support t0 evs. apply run_no_recent.
    unfold constructor. case_bool_decide; [destruct support |]; constructor.
Qed.

End Observer.

Section Sorting.

Lemma byTotalDesc_gt (a b : string * StatsAvg) :
  Qgtb (byTotalDesc a b) 0 = true <-> totalScore' (snd a) < totalScore' (snd b).
Proof. rewrite Qgtb_true. unfold byTotalDesc. split; intros; lra. Qed.

Lemma sortInsert_perm (a : string * StatsAvg) l :
  Permutation (sortInsert byTotalDesc a l) (a :: l).
Proof.
  induction l as [| b l IH]; simpl; [reflexivity |].
  destruct (Qgtb (byTotalDesc a b) 0); [| reflexivity].
  rewrite IH. apply perm_swap.
Qed.

Lemma sort_perm (l : list (string * StatsAvg)) :
  Permutation (sort byTotalDesc l) l.
Proof.
  induction l as [| a l IH]; simpl; [reflexivity |].
  unfold sort in *; simpl. rewrite sortInsert_perm. by constructor.
Qed.

Lemma sortInsert_sorted (a : string * StatsAvg) l :
  StronglySorted descTotal l ->
  StronglySorted descTotal (sortInsert byTotalDesc a l).
Proof.
  induction l as [| b l IH]; intros Hl; simpl.
  - repeat constructor.
  - apply StronglySorted_inv in Hl as [Hl Hb].
    destruct (Qgtb (byTotalDesc a b) 0) eqn:Hab.
    + apply byTotalDesc_gt in Hab.
      constructor; [by apply IH |].
      apply (Permutation_Forall (Permutation_sym (sortInsert_perm a l))).
      constructor; [unfold descTotal; lra | exact Hb].
    + apply Qgtb_false in Hab. unfold byTotalDesc in Hab.
      constructor; [by constructor |].
      constructor; [unfold descTotal; lra |].
      eapply Forall_impl; [exact Hb |].
      unfold descTotal. intros c Hc. simpl in Hc. lra.
Qed.

Lemma sort_sorted (l : list (string * StatsAvg)) :
  StronglySorted descTotal (sort byTotalDesc l).
Proof.
  induction l as [| a l IH]; [constructor |].
  unfold sort in *; simpl. by apply sortInsert_sorted.
Qed.

(** A strongly sorted list splits at any point into a sorted front and a
    rest that the front dominates. *)
Lemma sorted_take (n : nat) (l : list (string * StatsAvg)) :
  StronglySorted descTotal l ->
  StronglySorted descTotal (take n l)
  /\ (forall a b, In a (take n l) -> In b (drop n l) -> descTotal a b).
Proof.
  revert n. induction l as [| c l IH]; intros n Hl.
  - rewrite take_nil, drop_nil. split; [constructor | intros a b []].
  - destruct n as [| n]; simpl.
    + split; [constructor | intros a b []].
    + apply StronglySorted_inv in Hl as [Hl Hc].
      destruct (IH n Hl) as [Hs Hd]. split.
      * constructor; [exact Hs |].
        rewrite List.Forall_forall in Hc |- *. intros e He. apply Hc.
        apply list_elem_of_In. apply list_elem_of_In in He.
        eapply subseteq_take, He.
      * intros a b [<- | Ha] Hb.
        -- rewrite List.Forall_forall in Hc. apply Hc.
           apply list_elem_of_In. apply list_elem_of_In in Hb.
           eapply subseteq_drop, Hb.
        -- by apply Hd.
Qed.

(** The annotation of [printReport] by average score. *)
Lemma elementSeverity_tiers (e : StatsAvg) :
  (elementSeverity e = Red <-> 0.1 < avgScore e)
  /\ (elementSeverity e = Yellow <-> 0.01 < avgScore e /\ avgScore e <= 0.1)
  /\ (elementSeverity e = Green <-> avgScore e <= 0.01).
Proof.
  unfold elementSeverity.
  destruct (Qgtb (avgScore e) 0.1) eqn:H1;
    [| destruct (Qgtb (avgScore e) 0.01) eqn:H2].
  - apply Qgtb_true in H1.
    repeat split; try discriminate; try tauto; intros; lra.
  - apply Qgtb_false in H1. apply Qgtb_true in H2.
    repeat split; try discriminate; try tauto; intros; lra.
  - apply Qgtb_false in H1. apply Qgtb_false in H2.
    repeat split; try discriminate; try tauto; intros; lra.
Qed.

(** Away from the two limits the annotation is the colour of
    [getShiftSeverity]. *)
Lemma elementSeverity_getShiftSeverity (e : StatsAvg) :
  ~ avgScore e == 0.01 -> ~ avgScore e == 0.1 ->
  elementSeverity e = severityColor (getShiftSeverity (avgScore e)).
Proof.
  intros N1 N2. unfold elementSeverity, getShiftSeverity.
  destruct (Qgtb (avgScore e) 0.1) eqn:H1;
    destruct (Qgtb (avgScore e) 0.01) eqn:H2;
    destruct (Qltb (avgScore e) 0.01) eqn:H3;
    destruct (Qltb (avgScore e) 0.1) eqn:H4; simpl; try reflexivity;
    exfalso;
    repeat match goal with
      | H : Qgtb _ _ = true |- _ => apply Qgtb_true in H
      | H : Qgtb _ _ = false |- _ => apply Qgtb_false in H
      | H : Qltb _ _ = true |- _ => apply Qltb_true in H
      | H : Qltb _ _ = false |- _ => apply Qltb_false in H
      end;
    lra.
Qed.

End Sorting.

Section Report.
Context {Element : Type}.
Variable getElementSelector : Element -> string.
Implicit Types (st : State Element).

(** C8, as amended.  In development mode [printReport()] lists at most 10
    elements, in descending order of total score, and they are the first
    elements of the whole table of [getShiftsByElement()] so ordered: no
    element left out has a larger total than a listed one.  Each listed
    element is annotated from its own average score with the thresholds of
    [printReport] itself: red (high) above 0.1, yellow (medium) above 0.01 and
    up to 0.1, green (low) up to 0.01.  This is the colour of
    [getShiftSeverity] of the average except when the average is exactly 0.01
    or exactly 0.1. *)
Theorem printReport_elements st :
  isEnabled st = true ->
  let listed := sortedElements getElementSelector st in
  let total := fst (getTotalScore st) in
  (length listed <= 10)%nat
  /\ StronglySorted descTotal listed
  /\ (exists rest,
        Permutation (listed ++ rest)
                    (fst (getShiftsByElement getElementSelector st))
        /\ forall a b, In a listed -> In b rest -> descTotal a b)
  /\ printReport getElementSelector st =
       mkState (shifts st) (observer st) (isEnabled st)
         (console st ++
            [GroupReport; LogTotal (totalColor total) total]
            ++ (if bool_decide (0 < length listed)%nat
                then LogTop :: mjoin (imap elementLines listed)
                else [])
            ++ [GroupEnd])
         (now st)
  /\ (forall i e,
        listed !! i = Some e ->
        elementLines i e =
          [LogElement (i + 1) (elementSeverity (snd e)) (fst e);
           LogElementStats (count' (snd e)) (totalScore' (snd e))
                           (avgScore (snd e))])
  /\ (forall e : StatsAvg,
        (elementSeverity e = Red <-> 0.1 < avgScore e)
        /\ (elementSeverity e = Yellow <->
             0.01 < avgScore e /\ avgScore e <= 0.1)
        /\ (elementSeverity e = Green <-> avgScore e <= 0.01))
  /\ (forall e : StatsAvg,
        ~ avgScore e == 0.01 -> ~ avgScore e == 0.1 ->
        elementSeverity e = severityColor (getShiftSeverity (avgScore e))).
Proof.
  intros on listed total.
  pose proof (sort_sorted (fst (getShiftsByElement getElementSelector st)))
    as Hsorted.
  destruct (sorted_take 10 _ Hsorted) as [Htake Hdom].
  split; [| split; [| split; [| split; [| split; [| split]]]]].
  - subst listed. unfold sortedElements. rewrite length_take. lia.
  - exact Htake.
  - exists (drop 10 (sort byTotalDesc
                       (fst (getShiftsByElement getElementSelector st)))).
    split; [| exact Hdom].
    subst listed. unfold sortedElements. rewrite take_drop. apply sort_perm.
  - unfold printReport. clear Htake Hdom Hsorted.
    subst listed total. destruct st as [sh ob en co nw]; simpl in on.
    subst en. reflexivity.
  - reflexivity.
  - apply elementSeverity_tiers.
  - apply elementSeverity_getShiftSeverity.
Qed.

End Report.

Lemma printReport_elements_witness :
  isEnabled boundaryState = true
  /\ sortedElements id boundaryState
     = [("div"%string, mkStatsAvg 1 (0 + 0.1) ((0 + 0.1) / inject_Z 1))]
  /\ console (printReport id boundaryState) =
       [GroupReport; LogTotal Green (0 + 0.1); LogTop;
        LogElement 1 Yellow "div";
        LogElementStats 1 (0 + 0.1) ((0 + 0.1) / inject_Z 1);
        GroupEnd].
Proof.
  assert (H : isEnabled boundaryState = true) by reflexivity.
  destruct (printReport_elements id boundaryState H)
    as (_ & _ & _ & Hp & _).
  split; [exact H |]. split; [reflexivity |].
  rewrite Hp. reflexivity.
Defined.

(** C8, as stated, fails on the annotation: for a single shift of score 0.1
    on one element, [printReport()] lists the element with average 0.1 in
    yellow (medium), while the classification of a single shift puts 0.1 in
    high, whose colour is red. *)
Lemma printReport_boundary_counterexample :
  exists e,
    In e (sortedElements id boundaryState)
    /\ avgScore (snd e) == 0.1
    /\ In (LogElement 1 (elementSeverity (snd e)) (fst e))
          (console (printReport id boundaryState))
    /\ elementSeverity (snd e) = Yellow
    /\ getShiftSeverity (avgScore (snd e)) = high
    /\ elementSeverity (snd e)
       <> severityColor (getShiftSeverity (avgScore (snd e))).
Proof.
  exists ("div"%string, mkStatsAvg 1 (0 + 0.1) ((0 + 0.1) / inject_Z 1)).
  split; [left; reflexivity |].
  split; [reflexivity |].
  split; [vm_compute; tauto |].
  split; [reflexivity |]. split; [reflexivity |].
  vm_compute. discriminate.
Qed.

End LayoutShiftFacts.

(** ** [getTotalScore] on binary64 numbers *)

Module LayoutShiftDoubleFacts.
Import PrimFloat LayoutShiftDouble.

Section Window.
Context {Source : Type}.
Implicit Types (shifts : list (LayoutShiftDetail Source)).

(** The records summed are the stored ones for which the rounded difference
    is at most 5000, in the order in which they were stored. *)
Lemma windowShifts_spec (now : float) shifts
    (shift : LayoutShiftDetail Source) :
  In shift (List.filter (inWindow now) shifts)
  <-> In shift shifts /\ (now - timestamp shift <=? 5000)%float = true.
Proof. rewrite filter_In. reflexivity. Qed.

(** A record outside the window adds nothing to the sum, wherever it is
    stored. *)
Lemma getTotalScore_skips (now : float) shifts1 shifts2
    (shift : LayoutShiftDetail Source) :
  (now - timestamp shift <=? 5000)%float = false ->
  fst (getTotalScore now (shifts1 ++ shift :: shifts2))
  = fst (getTotalScore now (shifts1 ++ shifts2)).
Proof.
  intros Hout. unfold getTotalScore; simpl.
  rewrite !List.filter_app; simpl.
  unfold inWindow at 2. by rewrite Hout.
Qed.

(** A record inside the window that was stored last adds its score to the
    sum of the records before it. *)
Lemma getTotalScore_snoc (now : float) shifts
    (shift : LayoutShiftDetail Source) :
  (now - timestamp shift <=? 5000)%float = true ->
  fst (getTotalScore now (shifts ++ [shift]))
  = (fst (getTotalScore now shifts) + score shift)%float.
Proof.
  intros Hin. unfold getTotalScore; simpl.
  rewrite List.filter_app; simpl.
  unfold inWindow at 2. rewrite Hin.
  by rewrite fold_left_app.
Qed.

(** C4, as amended.  [getTotalScore()], called when the clock reads [now],
    returns the sum, added from the left starting at [0], of the scores of
    exactly those stored records for which the difference
    [now - timestamp], rounded to a double as the subtraction computes it,
    is at most [5000]: a stored record whose rounded difference exceeds
    [5000] adds nothing, wherever it stands, and one whose rounded difference
    is at most [5000] adds its score.  The call removes no record, and each
    call computes the window again from the whole sequence and the clock of
    that moment. *)
Theorem getTotalScore_rounded_window (now later : float) shifts :
  let windowShifts := List.filter (inWindow now) shifts in
  fst (getTotalScore now shifts)
  = fold_left (fun total shift => (total + score shift)%float) windowShifts
              0%float
  /\ (forall shift,
        In shift windowShifts
        <-> In shift shifts /\ (now - timestamp shift <=? 5000)%float = true)
  /\ (forall shifts1 shifts2 shift,
        shifts = shifts1 ++ shift :: shifts2 ->
        (now - timestamp shift <=? 5000)%float = false ->
        fst (getTotalScore now shifts)
        = fst (getTotalScore now (shifts1 ++ shifts2)))
  /\ (forall shifts1 shift,
        shifts = shifts1 ++ [shift] ->
        (now - timestamp shift <=? 5000)%float = true ->
        fst (getTotalScore now shifts)
        = (fst (getTotalScore now shifts1) + score shift)%float)
  /\ snd (getTotalScore now shifts) = shifts
  /\ getTotalScore now (snd (getTotalScore now shifts))
     = getTotalScore now shifts
  /\ fst (getTotalScore later (snd (getTotalScore now shifts)))
     = fold_left (fun total shift => (total + score shift)%float)
                 (List.filter (inWindow later) shifts) 0%float.
Proof.
  intros windowShifts.
  split; [reflexivity |].
  split; [intros shift; apply windowShifts_spec |].
  split; [intros shifts1 shifts2 shift ->; apply getTotalScore_skips |].
  split; [intros shifts1 shift ->; apply getTotalScore_snoc |].
  split; [reflexivity |]. split; reflexivity.
Qed.

End Window.

(** C4, as stated, fails at the edge of the window.  At [now = 5000.1] a
    record stored at [t = 0.1] is older than [now - 5000]: the doubles
    nearest to those literals are
    [5000.100000000000363797880709171295166015625] and
    [0.1000000000000000055511151231257827021181583404541015625], and
    [now - 5000], which the
    subtraction computes exactly, is above [t].  The difference [now - t]
    exceeds [5000] by less than half the distance to the next double above
    [5000], so the subtraction rounds it to [5000], the test [<= 5000]
    succeeds, and the score of the record is part of the sum. *)
Lemma window_rounding_counterexample :
  (timestamp early <? t5000_1 - 5000)%float = true
  /\ (t5000_1 - timestamp early)%float = 5000%float
  /\ inWindow t5000_1 early = true
  /\ In early (List.filter (inWindow t5000_1) [early])
  /\ fst (getTotalScore t5000_1 [early]) = 0.5%float
  /\ fst (getTotalScore t5000_1 [early])
     <> fst (getTotalScore (Source:=unit) t5000_1 []).
Proof.
  split; [vm_compute; reflexivity |].
  split; [vm_compute; reflexivity |].
  split; [vm_compute; reflexivity |].
  split; [vm_compute; left; reflexivity |].
  split; [vm_compute; reflexivity |].
  intros H. apply (f_equal (fun x => (x =? 0)%float)) in H.
  vm_compute in H. discriminate H.
Qed.

End LayoutShiftDoubleFacts.

(** ** The pending-task registry of the image worker *)

Module RegistryFacts.
Import WorkerImage.

Lemma settle_pendingTasks task s st :
  pendingTasks (settle task s st) = pendingTasks st.
Proof. unfold settle. by destruct (promises st !! task) as [[|]|]. Qed.

Lemma settle_timers task s st : timers (settle task s st) = timers st.
Proof. unfold settle. by destruct (promises st !! task) as [[|]|]. Qed.

Lemma settle_other task task' s st :
  task' <> task ->
  promises (settle task' s st) !! task = promises st !! task.
Proof.
  intros Hne. unfold settle.
  destruct (promises st !! task') as [[|]|]; simpl; try reflexivity.
  by apply list_lookup_insert_ne.
Qed.

Lemma settle_pending task s st :
  promises st !! task = Some Pending ->
  promises (settle task s st) !! task = Some (Settled s).
Proof.
  intros H. unfold settle. rewrite H; simpl.
  apply list_lookup_insert_eq. by eapply lookup_lt_Some.
Qed.

(** A message for a key that is not in the registry changes nothing. *)
Lemma onmessage_absent e st :
  pendingTasks st !! dataCacheKey (data e) = None -> onmessage e st = st.
Proof.
  intros H. unfold onmessage. rewrite H.
  by destruct (String.eqb (type e) "IMAGE_PROCESSED").
Qed.

(** A message for a registered key settles the promise whose callbacks the
    entry holds, removes the entry and leaves the other entries alone. *)
Lemma onmessage_present d st task :
  pendingTasks st !! dataCacheKey d = Some task ->
  promises st !! task = Some Pending ->
  let st' := onmessage (mkMessage "IMAGE_PROCESSED" d) st in
  pendingTasks st' = delete (dataCacheKey d) (pendingTasks st)
  /\ promises st' !! task =
       Some (Settled match d with
                     | WithDataUrl dataUrl _ => Fulfilled dataUrl
                     | WithError error _ => Rejected (AError error)
                     end).
Proof.
  intros Hk Hp st'. subst st'. unfold onmessage; simpl. rewrite Hk.
  destruct d as [dataUrl k | error k]; simpl in *;
    rewrite settle_pendingTasks; (split; [reflexivity |]);
    by apply settle_pending.
Qed.

(** A timer that finds its key in the registry removes the entry and rejects
    its own promise. *)
Lemma onTimeout_present tm st :
  is_Some (pendingTasks st !! timerKey tm) ->
  promises st !! timerTask tm = Some Pending ->
  pendingTasks (onTimeout tm st) = delete (timerKey tm) (pendingTasks st)
  /\ promises (onTimeout tm st) !! timerTask tm =
       Some (Settled (Rejected (AError "Worker processing timeout"))).
Proof.
  intros Hk Hp. unfold onTimeout. rewrite bool_decide_eq_true_2 by exact Hk.
  rewrite settle_pendingTasks. split; [reflexivity |]. by apply settle_pending.
Qed.

(** An orphaned task stays orphaned whatever happens next. *)
Lemma onTimeout_orphaned task tm st :
  timerTask tm <> task -> orphaned task st -> orphaned task (onTimeout tm st).
Proof.
  intros Hne (Hp & Hreg & Htm). unfold onTimeout.
  case_bool_decide; [| by repeat split].
  split; [| split].
  - by rewrite settle_other.
  - intros k. rewrite settle_pendingTasks; simpl. intros Hk.
    apply lookup_delete_Some in Hk as [_ Hk]. by apply (Hreg k).
  - by rewrite settle_timers.
Qed.

Lemma timeouts_orphaned task (tms : list Timer) st :
  Forall (fun tm => timerTask tm <> task) tms ->
  orphaned task st ->
  orphaned task (fold_left (fun st tm => onTimeout tm st) tms st).
Proof.
  revert st. induction tms as [| tm tms IH]; intros st Htms Hst; simpl;
    [exact Hst |].
  apply Forall_cons in Htms as [Htm Htms].
  apply IH; [exact Htms |]. by apply onTimeout_orphaned.
Qed.

Lemma step_orphaned task st ev :
  orphaned task st -> orphaned task (step st ev).
Proof.
  intros (Hp & Hreg & Htm).
  assert (Hlt : (task < length (promises st))%nat) by by eapply lookup_lt_Some.
  destruct ev as [cacheKey | e | t]; simpl.
  - unfold processImageWithWorker.
    destruct (imageWorker st); simpl.
    + split; [| split]; simpl.
      * by rewrite lookup_app_l.
      * intros k Hk. apply lookup_insert_Some in Hk as [[_ Hk] | [_ Hk]].
        -- lia.
        -- by apply (Hreg k).
      * apply Forall_app; split; [exact Htm |].
        constructor; [simpl; lia | constructor].
    + split; [| split].
      * rewrite settle_other by lia. simpl. by rewrite lookup_app_l.
      * by rewrite settle_pendingTasks.
      * by rewrite settle_timers.
  - unfold onmessage.
    destruct (String.eqb (type e) "IMAGE_PROCESSED"); [| by repeat split].
    destruct (pendingTasks st !! dataCacheKey (data e)) as [task' |] eqn:Hk;
      [| by repeat split].
    assert (Hne : task' <> task) by (intros ->; by apply (Hreg _ Hk)).
    destruct (data e) as [dataUrl k | error k]; simpl in *.
    all: split; [| split];
      [ by rewrite settle_other
      | intros k'; rewrite settle_pendingTasks; simpl; intros Hk';
        apply lookup_delete_Some in Hk' as [_ Hk']; by apply (Hreg k')
      | by rewrite settle_timers ].
  - unfold advanceTo. destruct (Qle_bool (now st) t); [| by repeat split].
    apply timeouts_orphaned.
    + rewrite List.Forall_forall in Htm |- *. intros tm Hin.
      apply filter_In in Hin as [Hin _]. by apply Htm.
    + split; [| split]; simpl; [exact Hp | exact Hreg |].
      rewrite List.Forall_forall in Htm |- *. intros tm Hin.
      apply filter_In in Hin as [Hin _]. by apply Htm.
Qed.

Lemma run_orphaned task st (evs : list Event) :
  orphaned task st -> promises (run st evs) !! task = Some Pending.
Proof.
  unfold run. revert st. induction evs as [| ev evs IH]; intros st Hst; simpl.
  - by destruct Hst.
  - apply IH. by apply step_orphaned.
Qed.

(** *** A task under a key of its own does settle *)

Lemma settle_settled task task' s st :
  settled task st -> settled task (settle task' s st).
Proof.
  intros [s0 Hs]. exists s0.
  destruct (decide (task' = task)) as [-> | Hne].
  - unfold settle. by rewrite Hs.
  - by rewrite settle_other.
Qed.

Lemma settle_pending_cases task task' s st :
  promises st !! task = Some Pending ->
  settled task (settle task' s st)
  \/ promises (settle task' s st) !! task = Some Pending.
Proof.
  intros Hp. destruct (decide (task' = task)) as [-> | Hne].
  - left. exists s. by apply settle_pending.
  - right. by rewrite settle_other.
Qed.

Lemma settle_now task s st : now (settle task s st) = now st.
Proof. unfold settle. by destruct (promises st !! task) as [[|]|]. Qed.

Lemma onTimeout_settled task tm st :
  settled task st -> settled task (onTimeout tm st).
Proof.
  intros Hs. unfold onTimeout.
  case_bool_decide; [by apply settle_settled | exact Hs].
Qed.

Lemma timeouts_settled task (tms : list Timer) st :
  settled task st ->
  settled task (fold_left (fun st tm => onTimeout tm st) tms st).
Proof.
  revert st. induction tms as [| tm tms IH]; intros st Hs; simpl; [exact Hs |].
  apply IH. by apply onTimeout_settled.
Qed.

(** Timer callbacks leave the timer list and the clock alone. *)
Lemma timeouts_frame (tms : list Timer) st :
  timers (fold_left (fun st tm => onTimeout tm st) tms st) = timers st
  /\ now (fold_left (fun st tm => onTimeout tm st) tms st) = now st.
Proof.
  revert st. induction tms as [| tm tms IH]; intros st; simpl; [done |].
  destruct (IH (onTimeout tm st)) as [-> ->].
  unfold onTimeout. case_bool_decide; [| done].
  by rewrite settle_timers, settle_now.
Qed.

Section OwnKey.
Variables (k : string) (task : nat) (deadline : Q).

Lemma onTimeout_other tm st :
  timerKey tm <> k ->
  registered k task st -> registered k task (onTimeout tm st).
Proof.
  intros Hne Hst. unfold onTimeout. case_bool_decide; [| exact Hst].
  destruct Hst as [Hs | [Hp Hk]].
  - left. by apply settle_settled.
  - destruct (settle_pending_cases task (timerTask tm)
                (Rejected (AError "Worker processing timeout"))
                (withPendingTasks (delete (timerKey tm) (pendingTasks st)) st)
                Hp) as [Hs | Hp'].
    + by left.
    + right. split; [exact Hp' |].
      rewrite settle_pendingTasks; simpl. by rewrite lookup_delete_ne.
Qed.

Lemma onTimeout_own st :
  registered k task st -> settled task (onTimeout (mkTimer deadline k task) st).
Proof.
  intros [Hs | [Hp Hk]]; unfold onTimeout; simpl.
  - case_bool_decide; [by apply settle_settled | exact Hs].
  - rewrite bool_decide_eq_true_2 by (by rewrite Hk).
    eexists. by apply settle_pending.
Qed.

Lemma timeouts_registered (tms : list Timer) st :
  Forall (fun tm => timerKey tm = k -> tm = mkTimer deadline k task) tms ->
  registered k task st ->
  registered k task (fold_left (fun st tm => onTimeout tm st) tms st)
  /\ (In (mkTimer deadline k task) tms ->
      settled task (fold_left (fun st tm => onTimeout tm st) tms st)).
Proof.
  revert st. induction tms as [| tm tms IH]; intros st Htms Hst; simpl.
  - split; [exact Hst | intros []].
  - apply Forall_cons in Htms as [Htm Htms].
    assert (Hnext : registered k task (onTimeout tm st)).
    { destruct (decide (timerKey tm = k)) as [Hk | Hk].
      - rewrite (Htm Hk). left. by apply onTimeout_own.
      - by apply onTimeout_other. }
    destruct (IH _ Htms Hnext) as [Hreg Hin]. split; [exact Hreg |].
    intros [Heq | Hlater]; [subst tm | by apply Hin].
    apply timeouts_settled. by apply onTimeout_own.
Qed.

Lemma step_settled st ev : settled task st -> settled task (step st ev).
Proof.
  intros Hs. destruct ev as [k' | e | t]; simpl.
  - unfold processImageWithWorker.
    assert (Happ : settled task
              (mkState (imageWorker st) (pendingTasks st)
                       (promises st ++ [Pending]) (posted st) (timers st)
                       (now st))).
    { destruct Hs as [s0 Hs]. exists s0; simpl. rewrite lookup_app_l; [done |].
      by eapply lookup_lt_Some. }
    destruct (imageWorker st); simpl; [exact Happ | by apply settle_settled].
  - unfold onmessage.
    destruct (String.eqb (type e) "IMAGE_PROCESSED"); [| exact Hs].
    destruct (pendingTasks st !! dataCacheKey (data e)); [| exact Hs].
    destruct (data e); by apply settle_settled.
  - unfold advanceTo. destruct (Qle_bool (now st) t); [| exact Hs].
    by apply timeouts_settled.
Qed.

Lemma step_awaiting st ev :
  ev <> Call k ->
  settled task st \/ awaiting k task deadline st ->
  settled task (step st ev) \/ awaiting k task deadline (step st ev).
Proof.
  intros Hev [Hs | (Hp & Hk & Hin & Huniq & Hnow)];
    [left; by apply step_settled |].
  destruct ev as [k' | e | t]; simpl.
  - assert (Hk' : k' <> k) by congruence.
    assert (Hlt : (task < length (promises st))%nat)
      by by eapply lookup_lt_Some.
    unfold processImageWithWorker. destruct (imageWorker st); simpl.
    + right. unfold awaiting; simpl.
      rewrite lookup_app_l by exact Hlt. rewrite lookup_insert_ne by exact Hk'.
      split; [exact Hp |]. split; [exact Hk |].
      split; [apply in_or_app; by left |]. split; [| exact Hnow].
      apply Forall_app; split; [exact Huniq |].
      constructor; [simpl; congruence | constructor].
    + right. unfold awaiting.
      rewrite settle_other by lia. rewrite settle_pendingTasks, settle_timers.
      simpl. rewrite lookup_app_l by exact Hlt.
      unfold settle; simpl.
      by destruct ((promises st ++ [Pending]) !! length (promises st))
        as [[|]|].
  - unfold onmessage.
    destruct (String.eqb (type e) "IMAGE_PROCESSED");
      [| right; by repeat split].
    destruct (pendingTasks st !! dataCacheKey (data e)) as [task' |] eqn:He;
      [| right; by repeat split].
    set (st1 := withPendingTasks
                  (delete (dataCacheKey (data e)) (pendingTasks st)) st).
    assert (Hcases : forall s,
              settled task (settle task' s st1)
              \/ awaiting k task deadline (settle task' s st1)).
    { intros s.
      destruct (settle_pending_cases task task' s st1 Hp) as [Hs | Hp'];
        [by left |].
      destruct (decide (dataCacheKey (data e) = k)) as [Hkey | Hkey].
      - left. rewrite Hkey, Hk in He. injection He as <-.
        exists s. by apply settle_pending.
      - right. unfold awaiting.
        rewrite settle_pendingTasks, settle_timers.
        split; [exact Hp' |]. split; [simpl; by rewrite lookup_delete_ne |].
        split; [exact Hin |]. split; [exact Huniq |].
        unfold settle. by destruct (promises st1 !! task') as [[|]|]. }
    destruct (data e); apply Hcases.
  - unfold advanceTo. destruct (Qle_bool (now st) t) eqn:Ht;
      [| right; by repeat split].
    set (st0 := mkState (imageWorker st) (pendingTasks st) (promises st)
                  (posted st)
                  (List.filter (fun tm => negb (Qle_bool (due tm) t))
                               (timers st)) t).
    set (dueNow := List.filter (fun tm => Qle_bool (due tm) t)
                               (timers st)).
    assert (Hreg0 : registered k task st0) by (right; by split).
    assert (Huniq0 : Forall (fun tm => timerKey tm = k ->
                                       tm = mkTimer deadline k task) dueNow).
    { rewrite List.Forall_forall in Huniq |- *. intros tm Htm.
      apply filter_In in Htm as [Htm _]. by apply Huniq. }
    destruct (timeouts_registered dueNow st0 Huniq0 Hreg0) as [Hreg Hfire].
    destruct (Qle_bool deadline t) eqn:Hdue.
    + left. apply Hfire. apply filter_In. by split.
    + apply Qle_bool_false in Hdue.
      destruct Hreg as [Hs | [Hp' Hk']]; [by left |]. right.
      destruct (timeouts_frame dueNow st0) as [Htimers Hclock].
      unfold awaiting. rewrite Htimers, Hclock; simpl.
      split; [exact Hp' |]. split; [exact Hk' |].
      split; [apply filter_In; split; [exact Hin | simpl] |].
      { apply negb_true_iff. apply Qle_bool_false. exact Hdue. }
      split; [| exact Hdue].
      rewrite List.Forall_forall in Huniq |- *. intros tm Htm.
      apply filter_In in Htm as [Htm _]. by apply Huniq.
Qed.

End OwnKey.

(** A task registered under a key that no outstanding timer closes over, and
    that is not registered again, is settled once the clock has passed its
    timeout, whatever messages and other calls come in between. *)
Lemma own_key_settles (k : string) st (evs : list Event) (t : Q) :
  imageWorker st = true ->
  Forall (fun tm => timerKey tm <> k) (timers st) ->
  Forall (fun ev => ev <> Call k) evs ->
  now st + timeout <= t ->
  settled (fst (processImageWithWorker k st))
          (run (snd (processImageWithWorker k st)) (evs ++ [AdvanceTo t])).
Proof.
  intros Hworker Hfresh Hevs Ht.
  set (task := length (promises st)).
  set (deadline := now st + timeout).
  assert (H1 : awaiting k task deadline (snd (processImageWithWorker k st))).
  { unfold processImageWithWorker. rewrite Hworker; simpl.
    unfold awaiting; simpl. rewrite lookup_insert_eq.
    split; [by rewrite lookup_app_r, Nat.sub_diag |]. split; [done |].
    split; [apply in_or_app; right; by left |]. split.
    - apply Forall_app; split; [| by repeat constructor].
      eapply Forall_impl; [exact Hfresh |]. intros tm Hne Heq. by destruct Hne.
    - subst deadline. unfold timeout. lra. }
  assert (Hfst : fst (processImageWithWorker k st) = task).
  { unfold processImageWithWorker. by destruct (negb (imageWorker st)). }
  rewrite Hfst. clear Hfst.
  assert (Hrun : forall evs st',
             Forall (fun ev => ev <> Call k) evs ->
             settled task st' \/ awaiting k task deadline st' ->
             settled task (run st' evs)
             \/ awaiting k task deadline (run st' evs)).
  { clear. unfold run.
    induction evs as [| ev evs IH]; intros st' Hevs Hst; simpl; [exact Hst |].
    apply Forall_cons in Hevs as [Hev Hevs].
    apply IH; [exact Hevs |]. by apply step_awaiting. }
  unfold run. rewrite fold_left_app; simpl.
  fold (run (snd (processImageWithWorker k st)) evs).
  destruct (Hrun evs _ Hevs (or_intror H1)) as [Hs | Ha].
  - by apply step_settled with (ev := AdvanceTo t).
  - destruct (step_awaiting k task deadline _ (AdvanceTo t) ltac:(discriminate)
                (or_intror Ha)) as [Hs | (_ & _ & _ & _ & Hnow)];
      [exact Hs |].
    exfalso. destruct Ha as (_ & _ & _ & _ & Hbefore).
    simpl in Hnow. unfold advanceTo in Hnow.
    assert (Hle : Qle_bool (now (run (snd (processImageWithWorker k st)) evs)) t
                  = true).
    { apply Qle_bool_iff. subst deadline. lra. }
    rewrite Hle in Hnow.
    destruct (timeouts_frame
      (List.filter (fun tm => Qle_bool (due tm) t)
         (timers (run (snd (processImageWithWorker k st)) evs)))
      (mkState (imageWorker (run (snd (processImageWithWorker k st)) evs))
         (pendingTasks (run (snd (processImageWithWorker k st)) evs))
         (promises (run (snd (processImageWithWorker k st)) evs))
         (posted (run (snd (processImageWithWorker k st)) evs))
         (List.filter (fun tm => negb (Qle_bool (due tm) t))
            (timers (run (snd (processImageWithWorker k st)) evs))) t))
      as [_ Hclock].
    simpl in Hclock.
    rewrite Hclock in Hnow. subst deadline. lra.
Qed.

(** C9 fails on the code when two tasks share a cache key.  Both calls of
    [processImageWithWorker("k")] register their task (the second replaces
    the entry of the first).  With a worker that never answers, the timer of
    the first task finds the key pending, removes the entry of the second
    task and rejects the first; the timer of the second task then finds
    nothing, and the second task stays pending whatever happens later.  With
    a worker that answers, the first answer settles the second task, the
    second answer and both timers find nothing, and the first task stays
    pending whatever happens later. *)
Theorem duplicate_key_orphans_task :
  processImageWithWorker "k" initial
    = (0%nat, run initial [Call "k"])
  /\ pendingTasks (run initial [Call "k"]) !! "k"%string = Some 0%nat
  /\ processImageWithWorker "k" (run initial [Call "k"; AdvanceTo 5000])
    = (1%nat, run initial [Call "k"; AdvanceTo 5000; Call "k"])
  /\ pendingTasks (run initial [Call "k"; AdvanceTo 5000; Call "k"])
       !! "k"%string = Some 1%nat
  /\ promises (run initial silentWorker) =
       [Settled (Rejected (AError "Worker processing timeout")); Pending]
  /\ pendingTasks (run initial silentWorker) = ∅
  /\ timers (run initial silentWorker) = []
  /\ (forall evs : list Event,
        promises (run (run initial silentWorker) evs) !! 1%nat = Some Pending)
  /\ promises (run initial answeringWorker) =
       [Pending; Settled (Fulfilled "url1"%string)]
  /\ pendingTasks (run initial answeringWorker) = ∅
  /\ timers (run initial answeringWorker) = []
  /\ (forall evs : list Event,
        promises (run (run initial answeringWorker) evs) !! 0%nat
        = Some Pending).
Proof.
  assert (Hs : run initial silentWorker =
               mkState true ∅
                 [Settled (Rejected (AError "Worker processing timeout"));
                  Pending]
                 ["k"%string; "k"%string] [] 20000)
    by (vm_compute; reflexivity).
  assert (Ha : run initial answeringWorker =
               mkState true ∅ [Pending; Settled (Fulfilled "url1"%string)]
                 ["k"%string; "k"%string] [] 20000)
    by (vm_compute; reflexivity).
  split; [vm_compute; reflexivity |]. split; [vm_compute; reflexivity |].
  split; [vm_compute; reflexivity |]. split; [vm_compute; reflexivity |].
  rewrite Hs, Ha; simpl.
  split; [reflexivity |]. split; [reflexivity |]. split; [reflexivity |].
  split;
    [| split; [reflexivity | split; [reflexivity | split; [reflexivity |]]]].
  - intros evs. apply run_orphaned.
    split; [reflexivity |]. split; [| constructor].
    intros k; simpl. by rewrite lookup_empty.
  - intros evs. apply run_orphaned.
    split; [reflexivity |]. split; [| constructor].
    intros k; simpl. by rewrite lookup_empty.
Qed.

End RegistryFacts.

(** ** The image cache *)

Module JsMapFacts.
Import JsMap.

Lemma size_set {V} (k : string) (v : V) (m : t V) :
  (size (set k v m) <= S (size m))%nat.
Proof.
  unfold size. induction m as [| [k' v'] m IH]; simpl; [lia |].
  destruct (String.eqb k' k); simpl; lia.
Qed.

Lemma get_set_eq {V} (k : string) (v : V) (m : t V) :
  get k (set k v m) = Some v.
Proof.
  unfold get. induction m as [| [k' v'] m IH]; simpl.
  - by rewrite String.eqb_refl.
  - destruct (String.eqb k' k) eqn:E; simpl; rewrite E;
      [reflexivity | exact IH].
Qed.

(** Deleting the first key drops the first entry. *)
Lemma delete_firstKey {V} (k : string) (m : t V) :
  firstKey m = Some k -> delete k m = tail m.
Proof.
  destruct m as [| [k' v'] m]; simpl; [discriminate |].
  intros [= ->]. by rewrite String.eqb_refl.
Qed.

Lemma keys_set {V} (k : string) (v : V) (m : t V) (P : string -> Prop) :
  P k -> Forall P (keys m) -> Forall P (keys (set k v m)).
Proof.
  intros Hk. unfold keys.
  induction m as [| [k' v'] m IH]; simpl; intros Hm.
  - by repeat constructor.
  - apply Forall_cons in Hm as [Hk' Hm].
    destruct (String.eqb k' k); simpl; constructor; auto.
Qed.

End JsMapFacts.

Module CacheFacts.
Import WorkerImage.

(** The oldest entry is really dropped when the cache is full: the first key
    of a cache whose keys are not empty strings is truthy. *)
Lemma storeInCache_eq (key dataUrl : string) (imageCache : JsMap.t string) :
  Forall (fun k => k <> ""%string) (JsMap.keys imageCache) ->
  storeInCache key dataUrl imageCache =
  JsMap.set key dataUrl
    (if (100 <=? JsMap.size imageCache)%nat then tail imageCache
     else imageCache).
Proof.
  intros Hkeys. unfold storeInCache.
  destruct (100 <=? JsMap.size imageCache)%nat eqn:Hfull; [| reflexivity].
  destruct imageCache as [| [k v] m]; [reflexivity |].
  apply Forall_cons in Hkeys as [Hk _]; simpl in Hk.
  unfold truthy; simpl.
  destruct (String.eqb k "") eqn:E; [by apply String.eqb_eq in E |]; simpl.
  by rewrite String.eqb_refl.
Qed.

Lemma storeInCache_size (key dataUrl : string) (imageCache : JsMap.t string) :
  Forall (fun k => k <> ""%string) (JsMap.keys imageCache) ->
  (JsMap.size imageCache <= 100)%nat ->
  (JsMap.size (storeInCache key dataUrl imageCache) <= 100)%nat.
Proof.
  intros Hkeys Hsize. rewrite storeInCache_eq by exact Hkeys.
  destruct (100 <=? JsMap.size imageCache)%nat eqn:Hfull.
  - apply Nat.leb_le in Hfull.
    etransitivity; [apply JsMapFacts.size_set |].
    destruct imageCache; unfold JsMap.size in *; simpl in *; lia.
  - apply Nat.leb_gt in Hfull.
    etransitivity; [apply JsMapFacts.size_set |]. lia.
Qed.

Lemma storeInCache_keys (key dataUrl : string) (imageCache : JsMap.t string) :
  key <> ""%string ->
  Forall (fun k => k <> ""%string) (JsMap.keys imageCache) ->
  Forall (fun k => k <> ""%string)
         (JsMap.keys (storeInCache key dataUrl imageCache)).
Proof.
  intros Hkey Hkeys. rewrite storeInCache_eq by exact Hkeys.
  apply JsMapFacts.keys_set; [exact Hkey |].
  destruct (100 <=? JsMap.size imageCache)%nat; [| exact Hkeys].
  destruct imageCache; [exact Hkeys |].
  by apply Forall_cons in Hkeys as [_ Hkeys].
Qed.

Section Hook.
Variable numberToString : Q -> string.

(** A cache key is never the empty string: it contains the dashes of the
    template. *)
Lemma cacheKey_truthy (p : Props) : cacheKey numberToString p <> ""%string.
Proof. unfold cacheKey. destruct (imageId p); discriminate. Qed.

Lemma reachable_invariant (imageCache : JsMap.t string) :
  reachable numberToString imageCache ->
  (JsMap.size imageCache <= 100)%nat
  /\ Forall (fun k => k <> ""%string) (JsMap.keys imageCache).
Proof.
  induction 1 as [| p dataUrl imageCache _ [IHsize IHkeys]].
  - split; [unfold JsMap.size; simpl; lia | constructor].
  - split.
    + by apply storeInCache_size.
    + apply storeInCache_keys; [apply cacheKey_truthy | exact IHkeys].
Qed.

(** C10.  Every cache the hook can produce holds at most 100 entries.  A
    store into such a cache first drops the oldest entry when the cache
    already holds 100 entries or more, then sets the new entry, and the
    result again holds at most 100 entries and has the new entry.  A key that
    is present is answered from the cache: the callback fulfils with the
    cached value, leaves the cache as it was and does not run the
    processing. *)
Theorem imageCache_bounded (imageCache : JsMap.t string) :
  reachable numberToString imageCache ->
  (JsMap.size imageCache <= 100)%nat
  /\ (forall p dataUrl,
        storeInCache (cacheKey numberToString p) dataUrl imageCache =
        JsMap.set (cacheKey numberToString p) dataUrl
          (if (100 <=? JsMap.size imageCache)%nat then tail imageCache
           else imageCache))
  /\ (forall p dataUrl,
        (JsMap.size
           (storeInCache (cacheKey numberToString p) dataUrl imageCache)
         <= 100)%nat)
  /\ (forall p dataUrl,
        JsMap.get (cacheKey numberToString p)
          (storeInCache (cacheKey numberToString p) dataUrl imageCache)
        = Some dataUrl)
  /\ (forall p processing,
        JsMap.has (cacheKey numberToString p) imageCache = true ->
        exists v,
          JsMap.get (cacheKey numberToString p) imageCache = Some v
          /\ useWorkerImageCallback numberToString p processing imageCache
             = (Fulfilled v, imageCache))
  /\ (forall p processing dataUrl imageCache',
        JsMap.has (cacheKey numberToString p) imageCache = false ->
        processing imageCache = (Fulfilled dataUrl, imageCache') ->
        useWorkerImageCallback numberToString p processing imageCache
        = (Fulfilled dataUrl,
           storeInCache (cacheKey numberToString p) dataUrl imageCache')).
Proof.
  intros Hreach.
  destruct (reachable_invariant imageCache Hreach) as [Hsize Hkeys].
  split; [exact Hsize |].
  split; [intros; by apply storeInCache_eq |].
  split; [intros; by apply storeInCache_size |].
  split; [intros; rewrite storeInCache_eq by exact Hkeys;
          apply JsMapFacts.get_set_eq |].
  split.
  - intros p processing Hhas. unfold useWorkerImageCallback. rewrite Hhas.
    unfold JsMap.has in Hhas. apply bool_decide_eq_true in Hhas as [v Hv].
    exists v. by rewrite Hv.
  - intros p processing dataUrl imageCache' Hhas Hproc.
    unfold useWorkerImageCallback. by rewrite Hhas, Hproc.
Qed.

End Hook.

Lemma imageCache_bounded_witness :
  reachable printUnit (storeInCache (cacheKey printUnit cover) "url" [])
  /\ (JsMap.size (storeInCache (cacheKey printUnit cover) "url" []) <= 100)%nat
  /\ useWorkerImageCallback printUnit cover
       (fun c => (Rejected AUndefined, c))
       (storeInCache (cacheKey printUnit cover) "url" [])
     = (Fulfilled "url"%string, [("cover-1-1-1-jpg"%string, "url"%string)]).
Proof.
  assert (H : reachable printUnit
                (storeInCache (cacheKey printUnit cover) "url" []))
    by (apply reachable_store, reachable_empty).
  destruct (imageCache_bounded printUnit _ H) as (Hsize & _).
  split; [exact H |]. split; [exact Hsize | reflexivity].
Defined.

End CacheFacts.

(** ** More of [PerformanceLogger] *)

Module TrackerReportFacts.
Import Tracker TrackerReport.

Lemma getReport_lookup {App : Type} (w : World App) name m :
  getReport w !! name = Some m
  <-> measurements w !! name = Some m /\ is_Some (duration m).
Proof. unfold getReport. by rewrite map_lookup_filter_Some. Qed.

Lemma getReport_lookup_None {App : Type} (w : World App) name :
  getReport w !! name = None
  <-> forall m, measurements w !! name = Some m -> duration m = None.
Proof.
  unfold getReport. rewrite map_lookup_filter_None. split.
  - intros [H | H] m Hm; [congruence |].
    destruct (duration m) eqn:E; [| done].
    exfalso. apply (H m Hm); simpl. by rewrite E.
  - intros H. destruct (measurements w !! name) as [m |] eqn:Hm; [| by left].
    right. intros m' [= <-]; simpl. rewrite (H m eq_refl). by intros [? ?].
Qed.




(** With the logger enabled, when [fn] returns [result] (for [measureAsync]:
    its promise fulfils) and a record [m] for [name] is in the map at that
    point, the caller gets [result], the record is closed with
    [duration = now - startTime], it enters the report, and the finishing
    console line carries the metadata of the record alone. *)
Theorem measure_success_closes {App T : Type} this name
    (fn : World App -> Completion T * World App)
    (afn : World App -> Completion (Promise T) * World App)
    md (w w2 : World App) (result : T) (m : PerformanceData) :
  isEnabled this = true ->
  fn (start this name md w) = (Returned result, w2) ->
  awaitCall afn (start this name md w) = (Fulfilled result, w2) ->
  measurements w2 !! name = Some m ->
  let closed :=
    mkPerformanceData (Tracker.name m) (startTime m) (Some (now w2))
                      (Some (now w2 - startTime m)) (metadata m) in
  let w3 :=
    mkWorld (<[name := closed]> (measurements w2))
            (console w2 ++
               [LogFinished (durationColor (now w2 - startTime m)) name
                  (now w2 - startTime m) (default ∅ (metadata m))])
            (now w2) (app w2) in
  measure this name fn md w = (Returned result, w3)
  /\ measureAsync this name afn md w = (Fulfilled result, w3)
  /\ getReport w3 !! name = Some closed.
Proof.
  intros on Hfn Hafn Hm closed w3.
  assert (Hend : end_ this name None w2 = (Some (now w2 - startTime m), w3)).
  { unfold end_. rewrite on, Hm; simpl. subst w3 closed. unfold spread; simpl.
    by rewrite (left_id_L ∅ (∪)). }
  split; [| split].
  - unfold measure. by rewrite Hfn, Hend.
  - unfold measureAsync. by rewrite Hafn, Hend.
  - apply getReport_lookup. subst w3; simpl. rewrite lookup_insert_eq.
    split; [done | by eexists].
Qed.

Lemma measure_success_closes_witness :
  isEnabled enabled = true
  /\ returnUnit (start enabled "op" None w0) = (Returned tt, started)
  /\ awaitCall fulfilUnit (start enabled "op" None w0)
     = (Fulfilled tt, started)
  /\ measurements started !! "op"%string
     = Some (mkPerformanceData "op" 0 None None None)
  /\ fst (measure enabled "op" returnUnit None w0) = Returned tt
  /\ getReport (snd (measure enabled "op" returnUnit None w0)) !! "op"%string
     = Some (mkPerformanceData "op" 0 (Some 0) (Some (0 - 0)) None).
Proof.
  assert (H1 : isEnabled enabled = true) by reflexivity.
  assert (H2 : returnUnit (start enabled "op" None w0) = (Returned tt, started))
    by reflexivity.
  assert (H3 : awaitCall fulfilUnit (start enabled "op" None w0)
               = (Fulfilled tt, started)) by reflexivity.
  assert (H4 : measurements started !! "op"%string
               = Some (mkPerformanceData "op" 0 None None None))
    by (vm_compute; reflexivity).
  destruct (measure_success_closes enabled "op" returnUnit fulfilUnit None w0
              started tt _ H1 H2 H3 H4) as (Hm & _ & Hr).
  split; [exact H1 |]. split; [exact H2 |]. split; [exact H3 |].
  split; [exact H4 |]. rewrite Hm. split; [reflexivity | exact Hr].
Defined.

(** With the logger enabled: an interval that was started and not ended is
    not in the report; [start] at [t1] followed by [end] at [t2] puts exactly
    the record of that interval, with duration [t2 - t1], in the report under
    its name and changes the report under no other name; [clear] empties the
    report, after which [end] finds nothing and returns [null]. *)
Theorem report_after_start_end {App : Type} this name md md'
    (w : World App) (t1 t2 : Q) :
  isEnabled this = true ->
  let w1 := start this name md (at_time t1 w) in
  let w2 := snd (end_ this name md' (at_time t2 w1)) in
  getReport w1 !! name = None
  /\ getReport w2 !! name
     = Some (mkPerformanceData name t1 (Some t2) (Some (t2 - t1)) md)
  /\ (forall other, other <> name ->
        getReport w1 !! other = getReport w !! other
        /\ getReport w2 !! other = getReport w !! other)
  /\ getReport (clear w2) = ∅
  /\ fst (end_ this name md' (clear w2)) = None.
Proof.
  intros on w1 w2.
  assert (H1 : measurements w1 =
               <[name := mkPerformanceData name t1 None None md]>
                 (measurements w)).
  { subst w1. unfold start. by rewrite on. }
  assert (H2 : measurements w2 =
               <[name := mkPerformanceData name t1 (Some t2) (Some (t2 - t1))
                           md]> (measurements w)).
  { subst w2. unfold end_. rewrite on; simpl. rewrite H1, lookup_insert_eq.
    simpl. by rewrite insert_insert_eq. }
  split; [| split; [| split; [| split]]].
  - apply getReport_lookup_None. rewrite H1, lookup_insert_eq.
    by intros m [= <-].
  - apply getReport_lookup. rewrite H2, lookup_insert_eq.
    split; [done | by eexists].
  - intros other Hne. unfold getReport.
    split; apply option_eq; intros m; rewrite !map_lookup_filter_Some;
      [rewrite H1 | rewrite H2]; by rewrite lookup_insert_ne.
  - unfold getReport, clear; simpl. apply map_filter_empty.
  - unfold end_, clear. rewrite on; simpl. by rewrite lookup_empty.
Qed.

Lemma report_after_start_end_witness :
  isEnabled enabled = true
  /\ getReport (snd (end_ enabled "op" None
                       (at_time 30 (start enabled "op" sampleM2
                                      (at_time 20 w0))))) !! "op"%string
     = Some (mkPerformanceData "op" 20 (Some 30) (Some (30 - 20)) sampleM2).
Proof.
  assert (H : isEnabled enabled = true) by reflexivity.
  split; [exact H |].
  exact (proj1 (proj2
           (report_after_start_end enabled "op" sampleM2 None w0 20 30 H))).
Defined.

(** The colour of the finishing line of [end]: green up to 50 ms, yellow
    above 50 and up to 100 ms, red above 100 ms; and an interval ended no
    earlier than it was started has a duration that is not negative. *)
Theorem end_duration_color {App : Type} this name md md'
    (w : World App) (t1 t2 : Q) :
  isEnabled this = true ->
  t1 <= t2 ->
  let r :=
    end_ this name md' (at_time t2 (start this name md (at_time t1 w))) in
  fst r = Some (t2 - t1)
  /\ 0 <= t2 - t1
  /\ last (console (snd r))
     = Some (LogFinished (durationColor (t2 - t1)) name (t2 - t1)
                         (spread md md'))
  /\ (durationColor (t2 - t1) = Green <-> t2 - t1 <= 50)
  /\ (durationColor (t2 - t1) = Yellow <-> 50 < t2 - t1 /\ t2 - t1 <= 100)
  /\ (durationColor (t2 - t1) = Red <-> 100 < t2 - t1).
Proof.
  intros on Ht r.
  assert (Hr : r = (Some (t2 - t1),
                    mkWorld
                      (<[name := mkPerformanceData name t1 (Some t2)
                                   (Some (t2 - t1)) md]>
                         (<[name := mkPerformanceData name t1 None None md]>
                            (measurements w)))
                      ((console w ++ [LogStarted name md]) ++
                         [LogFinished (durationColor (t2 - t1)) name (t2 - t1)
                            (spread md md')])
                      t2 (app w))).
  { subst r. unfold end_, start. rewrite on; simpl.
    by rewrite lookup_insert_eq. }
  rewrite Hr; simpl.
  split; [done |]. split; [lra |]. split; [by rewrite last_snoc |].
  unfold durationColor.
  destruct (Qgtb (t2 - t1) 100) eqn:H1;
    [| destruct (Qgtb (t2 - t1) 50) eqn:H2].
  - apply Qgtb_true in H1.
    repeat split; try discriminate; try tauto; intros; lra.
  - apply Qgtb_false in H1. apply Qgtb_true in H2.
    repeat split; try discriminate; try tauto; intros; lra.
  - apply Qgtb_false in H1. apply Qgtb_false in H2.
    repeat split; try discriminate; try tauto; intros; lra.
Qed.

Lemma end_duration_color_witness :
  isEnabled enabled = true
  /\ 20 <= 30
  /\ fst (end_ enabled "op" None
            (at_time 30 (start enabled "op" None (at_time 20 w0))))
     = Some (30 - 20).
Proof.
  assert (H : isEnabled enabled = true) by reflexivity.
  assert (Ht : 20 <= 30) by lra.
  split; [exact H |]. split; [exact Ht |].
  exact (proj1 (end_duration_color enabled "op" None None w0 20 30 H Ht)).
Defined.

End TrackerReportFacts.

(** ** More of the insertion-ordered map *)

Module JsMapMore.
Import JsMap.

Lemma get_set_ne {V} (k k' : string) (v : V) (m : t V) :
  k <> k' -> get k' (set k v m) = get k' m.
Proof.
  intros Hne. unfold get. induction m as [| [k0 v0] m IH]; simpl.
  - destruct (String.eqb k k') eqn:E; [by apply String.eqb_eq in E | done].
  - destruct (String.eqb k0 k) eqn:E0; simpl.
    + apply String.eqb_eq in E0 as ->.
      destruct (String.eqb k k') eqn:E; [by apply String.eqb_eq in E | done].
    + destruct (String.eqb k0 k'); [done | exact IH].
Qed.

Lemma get_None_keys {V} (k : string) (m : t V) :
  get k m = None <-> ~ In k (keys m).
Proof.
  unfold get, keys. induction m as [| [k0 v0] m IH]; simpl; [tauto |].
  destruct (String.eqb k0 k) eqn:E; simpl.
  - apply String.eqb_eq in E as ->. split; [discriminate | tauto].
  - apply String.eqb_neq in E. rewrite IH. tauto.
Qed.

Lemma keys_set_incl {V} (k k' : string) (v : V) (m : t V) :
  In k' (keys (set k v m)) <-> k' = k \/ In k' (keys m).
Proof.
  unfold keys. induction m as [| [k0 v0] m IH]; simpl; [intuition |].
  destruct (String.eqb k0 k) eqn:E; simpl.
  - apply String.eqb_eq in E as ->. intuition.
  - rewrite IH. intuition.
Qed.

Lemma keys_set_NoDup {V} (k : string) (v : V) (m : t V) :
  NoDup (keys m) -> NoDup (keys (set k v m)).
Proof.
  unfold keys. induction m as [| [k0 v0] m IH]; simpl; intros Hm.
  - repeat constructor. by intros ?%elem_of_nil.
  - apply NoDup_cons in Hm as [Hk0 Hm].
    destruct (String.eqb k0 k) eqn:E; simpl.
    + by apply NoDup_cons.
    + apply String.eqb_neq in E. apply NoDup_cons. split; [| by apply IH].
      intros Hin. apply list_elem_of_In in Hin.
      apply (keys_set_incl k k0 v m) in Hin as [-> | Hin]; [done |].
      apply Hk0. by apply list_elem_of_In.
Qed.

End JsMapMore.

(** ** [WebVitalsLogger]: history and latest metrics *)

Module VitalsLoggerFacts.
Import Vitals VitalsLogger.

(** One step of the loop of [getLatestMetrics]. *)
Lemma getLatestMetrics_snoc (l : list WebVitalsMetric) (x : WebVitalsMetric)
    obs con t :
  getLatestMetrics (mkState (l ++ [x]) obs con t) =
  let latest := getLatestMetrics (mkState l obs con t) in
  match JsMap.get (name x) latest with
  | None => JsMap.set (name x) x latest
  | Some current =>
      if Qgtb (timestamp x) (timestamp current)
      then JsMap.set (name x) x latest
      else latest
  end.
Proof. unfold getLatestMetrics; simpl. by rewrite fold_left_app. Qed.

(** What [getLatestMetrics] holds under a name [n] after the history [l]:
    nothing when no metric is named [n], and otherwise the first of the
    metrics named [n] that no other one exceeds in timestamp. *)
Lemma latest_spec (l : list WebVitalsMetric) obs con t (n : string) :
  match JsMap.get n (getLatestMetrics (mkState l obs con t)) with
  | None => forall m, In m l -> name m <> n
  | Some m =>
      exists pre post,
        l = pre ++ m :: post /\ name m = n
        /\ (forall m', In m' pre -> name m' = n -> timestamp m' < timestamp m)
        /\ (forall m', In m' post -> name m' = n ->
                       timestamp m' <= timestamp m)
  end.
Proof.
  induction l as [| x l IH] using rev_ind; [by intros m [] |].
  rewrite getLatestMetrics_snoc; simpl.
  set (latest := getLatestMetrics (mkState l obs con t)) in *.
  destruct (decide (name x = n)) as [Hx | Hx].
  - subst n. destruct (JsMap.get (name x) latest) as [cur |] eqn:Hcur.
    + destruct IH as (pre & post & -> & Hname & Hpre & Hpost).
      destruct (Qgtb (timestamp x) (timestamp cur)) eqn:Hgt.
      * rewrite JsMapFacts.get_set_eq. apply Qgtb_true in Hgt.
        exists (pre ++ cur :: post), []. split; [done |]. split; [done |].
        split; [| by intros m' []].
        intros m' Hin Hm'. apply in_app_or in Hin as [Hin | [<- | Hin]].
        -- specialize (Hpre m' Hin Hm'). lra.
        -- exact Hgt.
        -- specialize (Hpost m' Hin Hm'). lra.
      * rewrite Hcur. apply Qgtb_false in Hgt.
        exists pre, (post ++ [x]). split; [by rewrite <- app_assoc |].
        split; [done |]. split; [exact Hpre |].
        intros m' Hin Hm'. apply in_app_or in Hin as [Hin | [<- | []]].
        -- by apply Hpost.
        -- exact Hgt.
    + rewrite JsMapFacts.get_set_eq.
      exists l, []. split; [done |]. split; [done |].
      split; [| by intros m' []].
      intros m' Hin Hm'. by destruct (IH m' Hin).
  - assert (Hsame : JsMap.get n
              match JsMap.get (name x) latest with
              | None => JsMap.set (name x) x latest
              | Some current =>
                  if Qgtb (timestamp x) (timestamp current)
                  then JsMap.set (name x) x latest
                  else latest
              end = JsMap.get n latest).
    { destruct (JsMap.get (name x) latest) as [cur |];
        [destruct (Qgtb (timestamp x) (timestamp cur)) |];
        try reflexivity; by apply JsMapMore.get_set_ne. }
    rewrite Hsame. destruct (JsMap.get n latest) as [m |].
    + destruct IH as (pre & post & -> & Hname & Hpre & Hpost).
      exists pre, (post ++ [x]). split; [by rewrite <- app_assoc |].
      split; [done |]. split; [exact Hpre |].
      intros m' Hin Hm'. apply in_app_or in Hin as [Hin | [<- | []]].
      * by apply Hpost.
      * done.
    + intros m Hin. apply in_app_or in Hin as [Hin | [<- | []]];
        [by apply IH | done].
Qed.

Lemma latest_keys_NoDup (l : list WebVitalsMetric) obs con t :
  NoDup (JsMap.keys (getLatestMetrics (mkState l obs con t))).
Proof.
  induction l as [| x l IH] using rev_ind; [constructor |].
  rewrite getLatestMetrics_snoc; simpl.
  destruct (JsMap.get (name x) _) as [cur |];
    [destruct (Qgtb (timestamp x) (timestamp cur)) |];
    try exact IH; by apply JsMapMore.keys_set_NoDup.
Qed.

(** [getLatestMetrics()] has one entry for each name that occurs in the
    history and none for any other name.  The entry of a name is a metric of
    the history with that name whose timestamp no other metric of the name
    exceeds; among several with that timestamp it is the one recorded
    first. *)
Theorem getLatestMetrics_latest (st : State) (n : string) :
  NoDup (JsMap.keys (getLatestMetrics st))
  /\ (JsMap.get n (getLatestMetrics st) = None
      <-> forall m, In m (metrics st) -> name m <> n)
  /\ (forall m,
        JsMap.get n (getLatestMetrics st) = Some m ->
        exists pre post,
          metrics st = pre ++ m :: post /\ name m = n
          /\ (forall m', In m' pre -> name m' = n ->
                         timestamp m' < timestamp m)
          /\ (forall m', In m' post -> name m' = n ->
                         timestamp m' <= timestamp m)).
Proof.
  destruct st as [l obs con t]; simpl.
  pose proof (latest_spec l obs con t n) as H.
  split; [apply latest_keys_NoDup |]. split.
  - destruct (JsMap.get n _) as [m |]; [| by split].
    destruct H as (pre & post & -> & Hname & _).
    split; [discriminate |]. intros Hnone. exfalso.
    apply (Hnone m); [apply in_or_app; right; by left | exact Hname].
  - intros m Hm. rewrite Hm in H. exact H.
Qed.

Lemma recordMetric_metrics n v r st :
  metrics (recordMetric n v r st) = metrics st ++ [mkMetric n v r (dateNow st)]
  /\ dateNow (recordMetric n v r st) = dateNow st
  /\ observer (recordMetric n v r st) = observer st.
Proof. done. Qed.

Lemma handleEntry_metrics entry st :
  dateNow (handleEntry entry st) = dateNow st
  /\ exists news,
       metrics (handleEntry entry st) = metrics st ++ news
       /\ map (fun m => (name m, value m)) news
          = match metricOf entry with Some p => [p] | None => [] end
       /\ Forall (fun m => timestamp m = dateNow st /\ consistent m) news.
Proof.
  unfold handleEntry, metricOf.
  destruct (String.eqb (entryType entry) "largest-contentful-paint");
    [| destruct (String.eqb (entryType entry) "first-input");
       [| destruct (String.eqb (entryType entry) "layout-shift"
                    && negb (hadRecentInput entry))]].
  1-3: split; [done |]; eexists [_]; split; [done |]; split; [done |];
       by repeat constructor.
  split; [done |]. exists []. by rewrite app_nil_r.
Qed.

Lemma callback_metrics entries st :
  dateNow (callback entries st) = dateNow st
  /\ exists news,
       metrics (callback entries st) = metrics st ++ news
       /\ map (fun m => (name m, value m)) news = omap metricOf entries
       /\ Forall (fun m => timestamp m = dateNow st /\ consistent m) news.
Proof.
  unfold callback. revert st.
  induction entries as [| entry entries IH]; intros st; simpl.
  - split; [done |]. exists []. by rewrite app_nil_r.
  - destruct (handleEntry_metrics entry st) as (Hnow & n1 & Hm1 & Hmap1 & Hf1).
    destruct (IH (handleEntry entry st)) as (Hnow2 & n2 & Hm2 & Hmap2 & Hf2).
    split; [congruence |]. exists (n1 ++ n2).
    split; [by rewrite Hm2, Hm1, <- app_assoc |].
    split.
    + rewrite map_app, Hmap1, Hmap2. by destruct (metricOf entry).
    + apply Forall_app; split; [exact Hf1 |]. by rewrite <- Hnow.
Qed.

Lemma measureInitialMetrics_consistent fcp nav st :
  Forall consistent (metrics st) ->
  Forall consistent (metrics (measureInitialMetrics fcp nav st)).
Proof.
  intros Hst. unfold measureInitialMetrics.
  destruct fcp as [| first1 ?]; destruct nav as [| first2 ?]; simpl;
    repeat (apply Forall_app; split); try exact Hst;
    by repeat constructor.
Qed.

Lemma step_consistent st (ev : Event) :
  Forall consistent (metrics st) -> Forall consistent (metrics (step st ev)).
Proof.
  intros Hst. destruct ev as [entries | t | |]; simpl; try exact Hst.
  - destruct (observer st); [| exact Hst].
    destruct (callback_metrics entries st) as (_ & news & -> & _ & Hnews).
    apply Forall_app; split; [exact Hst |].
    eapply Forall_impl; [exact Hnews |]. by intros m [_ Hm].
  - constructor.
  - unfold destroy. by destruct (observer st).
Qed.

(** The observer callback appends to the history, in order, one metric for
    each entry that is a largest-contentful-paint, a first-input, or a
    layout-shift without recent input (LCP with [startTime], FID with
    [processingStart - startTime], CLS with [value]), and nothing for any
    other entry; it never changes or removes an earlier metric.  Every metric
    a logger ever holds carries the rating that the method of its name gives
    to its value. *)
Theorem history_consistent :
  (forall entries st,
     exists news,
       metrics (callback entries st) = metrics st ++ news
       /\ map (fun m => (name m, value m)) news = omap metricOf entries
       /\ Forall (fun m => timestamp m = dateNow st /\ consistent m) news)
  /\ (forall support fcp nav t0 (evs : list Event),
        Forall consistent (metrics (run (constructor support fcp nav t0) evs))).
Proof.
  split; [intros; apply callback_metrics |].
  intros support fcp nav t0 evs.
  assert (H0 : Forall consistent (metrics (constructor support fcp nav t0))).
  { destruct support; simpl; [constructor | |];
      apply measureInitialMetrics_consistent; constructor. }
  revert H0. unfold run. generalize (constructor support fcp nav t0).
  induction evs as [| ev evs IH]; intros st Hst; simpl; [exact Hst |].
  apply IH. by apply step_consistent.
Qed.

End VitalsLoggerFacts.

(** ** More of [LayoutShiftAnalyzer] *)

Module LayoutShiftTableFacts.
Import LayoutShift LayoutShiftTable.










Lemma sumQ_snoc (l : list Q) (x : Q) : sumQ (l ++ [x]) = sumQ l + x.
Proof. unfold sumQ. by rewrite fold_left_app. Qed.

Section Table.
Context {Element : Type}.
Variable getElementSelector : Element -> string.
Implicit Types (st : State Element).


End Table.

Section WindowBounds.
Context {Element : Type}.
Implicit Types (st : State Element) (shifts : list (LayoutShiftDetail Element)).

Lemma windowSum_bounds shifts (now t : Q) :
  Forall (fun shift => 0 <= score shift) shifts ->
  now <= t ->
  0 <= windowSum t shifts
  /\ windowSum t shifts <= windowSum now shifts
  /\ windowSum now shifts <= sumAll shifts.
Proof.
  intros Hpos Ht. induction Hpos as [| shift shifts Hs _ IH]; simpl; [lra |].
  destruct IH as (IH1 & IH2 & IH3).
  destruct (Qltb (timestamp shift) (t - 5000)) eqn:E1;
    destruct (Qltb (timestamp shift) (now - 5000)) eqn:E2;
    try (repeat split; lra).
  apply Qltb_false in E1. apply Qltb_true in E2. lra.
Qed.

(** When no stored score is negative, the windowed total lies between 0 and
    the sum of all stored scores, and as long as no shift is added it does
    not grow when time passes: records only leave the window. *)
Theorem getTotalScore_decays st (t : Q) :
  Forall (fun shift => 0 <= score shift) (shifts st) ->
  now st <= t ->
  let later :=
    mkState (shifts st) (observer st) (isEnabled st) (console st) t in
  0 <= fst (getTotalScore later)
  /\ fst (getTotalScore later) <= fst (getTotalScore st)
  /\ fst (getTotalScore st) <= sumAll (shifts st).
Proof.
  intros Hpos Ht later.
  destruct (windowSum_bounds (shifts st) (now st) t Hpos Ht) as (H1 & H2 & H3).
  assert (Hst : fst (getTotalScore st) == windowSum (now st) (shifts st)).
  { unfold getTotalScore; simpl. rewrite LayoutShiftFacts.fold_window. lra. }
  assert (Hlater : fst (getTotalScore later) == windowSum t (shifts st)).
  { unfold getTotalScore; simpl. rewrite LayoutShiftFacts.fold_window. lra. }
  rewrite Hst, Hlater. by repeat split.
Qed.

(** The severity of a single shift: low below 0.01, medium from 0.01 and
    below 0.1, high from 0.1; the group line that the callback logs for a
    stored entry carries that severity and its colour. *)
Theorem getShiftSeverity_tiers (getElementSelector : Element -> string)
    (score : Q) (t v : Q) srcs st :
  (getShiftSeverity score = low <-> score < 0.01)
  /\ (getShiftSeverity score = medium <-> 0.01 <= score /\ score < 0.1)
  /\ (getShiftSeverity score = high <-> 0.1 <= score)
  /\ (exists rest,
        console (handleEntry getElementSelector
                   (mkEntry "layout-shift" t v srcs false) st) =
        console st
          ++ GroupShift (severityColor (getShiftSeverity v)) v
               (getShiftSeverity v)
          :: LogTimestamp t :: rest).
Proof.
  split; [| split; [| split]].
  1-3: unfold getShiftSeverity;
    destruct (Qltb score 0.01) eqn:H1;
      [apply Qltb_true in H1
      | apply Qltb_false in H1; destruct (Qltb score 0.1) eqn:H2;
        [apply Qltb_true in H2 | apply Qltb_false in H2]];
    split; intros; try discriminate; try lra; try done.
  unfold handleEntry, logLayoutShift, getTotalScore; simpl.
  match goal with |- context [Qgtb ?a ?b] => destruct (Qgtb a b) end; simpl;
    rewrite <- ?app_assoc; simpl; eexists; reflexivity.
Qed.

End WindowBounds.

Lemma getTotalScore_decays_witness :
  Forall (fun shift : LayoutShiftDetail string => 0 <= score shift)
         (shifts boundaryState)
  /\ now boundaryState <= 6000
  /\ fst (getTotalScore
            (mkState (shifts boundaryState) true true [] 6000))
     <= fst (getTotalScore boundaryState).
Proof.
  assert (H1 : Forall (fun shift : LayoutShiftDetail string => 0 <= score shift)
                      (shifts boundaryState)).
  { repeat constructor; simpl. lra. }
  assert (H2 : now boundaryState <= 6000) by (simpl; lra).
  split; [exact H1 |]. split; [exact H2 |].
  exact (proj1 (proj2 (getTotalScore_decays boundaryState 6000 H1 H2))).
Defined.

End LayoutShiftTableFacts.

(** ** More of the image worker registry *)

Module RegistryInvariantFacts.
Import WorkerImage RegistryInvariant RegistryFacts.

Lemma settle_length task s st :
  length (promises (settle task s st)) = length (promises st).
Proof.
  unfold settle. destruct (promises st !! task) as [[|]|]; simpl; try done.
  apply length_insert.
Qed.

Lemma settle_imageWorker task s st :
  imageWorker (settle task s st) = imageWorker st.
Proof. unfold settle. by destruct (promises st !! task) as [[|]|]. Qed.

Lemma own_key_settles_example :
  imageWorker initial = true
  /\ Forall (fun tm => timerKey tm <> "k"%string) (timers initial)
  /\ Forall (fun ev => ev <> Call "k")
            [Call "other"; AdvanceTo 4000; Message (reply "url1")]
  /\ now initial + timeout <= 10000
  /\ settled (fst (processImageWithWorker "k" initial))
       (run (snd (processImageWithWorker "k" initial))
            ([Call "other"; AdvanceTo 4000; Message (reply "url1")]
               ++ [AdvanceTo 10000])).
Proof.
  assert (H1 : imageWorker initial = true) by reflexivity.
  assert (H2 : Forall (fun tm => timerKey tm <> "k"%string) (timers initial))
    by constructor.
  assert (H3 : Forall (fun ev => ev <> Call "k")
                 [Call "other"; AdvanceTo 4000; Message (reply "url1")]).
  { repeat constructor; discriminate. }
  assert (H4 : now initial + timeout <= 10000) by (vm_compute; discriminate).
  split; [exact H1 |]. split; [exact H2 |]. split; [exact H3 |].
  split; [exact H4 |].
  exact (own_key_settles "k" initial _ 10000 H1 H2 H3 H4).
Defined.

(** A message of the worker touches one task at most: the registry loses
    at most the entry of the key in the message, only the promise that this
    entry held can change, and timers and clock stay as they were; a message
    of another type, or for a key that is not registered, changes nothing. *)
Theorem onmessage_frame (e : MessageEvent) st :
  let st' := onmessage e st in
  timers st' = timers st /\ now st' = now st
  /\ length (promises st') = length (promises st)
  /\ (forall k, k <> dataCacheKey (data e) ->
        pendingTasks st' !! k = pendingTasks st !! k)
  /\ (forall task,
        pendingTasks st !! dataCacheKey (data e) <> Some task ->
        promises st' !! task = promises st !! task)
  /\ (pendingTasks st !! dataCacheKey (data e) = None -> st' = st)
  /\ (type e <> "IMAGE_PROCESSED"%string -> st' = st).
Proof.
  intros st'. subst st'. unfold onmessage.
  destruct (String.eqb (type e) "IMAGE_PROCESSED") eqn:Htype.
  - destruct (pendingTasks st !! dataCacheKey (data e)) as [task |] eqn:Hk.
    + assert (H : forall s,
                let st1 := settle task s
                             (withPendingTasks
                                (delete (dataCacheKey (data e))
                                        (pendingTasks st)) st) in
                timers st1 = timers st /\ now st1 = now st
                /\ length (promises st1) = length (promises st)
                /\ (forall k, k <> dataCacheKey (data e) ->
                      pendingTasks st1 !! k = pendingTasks st !! k)
                /\ (forall task',
                      Some task <> Some task' ->
                      promises st1 !! task' = promises st !! task')).
      { intros s st1. subst st1.
        rewrite settle_timers, settle_now, settle_length, settle_pendingTasks.
        simpl. split; [done |]. split; [done |]. split; [done |].
        split; [intros k Hne; by apply lookup_delete_ne |].
        intros task' Hne. rewrite settle_other; [done | congruence]. }
      apply String.eqb_eq in Htype.
      destruct (data e) as [dataUrl k | error k]; simpl in *;
        destruct (H (Fulfilled dataUrl)) as (H1 & H2 & H3 & H4 & H5)
        || destruct (H (Rejected (AError error))) as (H1 & H2 & H3 & H4 & H5);
        (split; [exact H1 |]; split; [exact H2 |]; split; [exact H3 |];
         split; [exact H4 |]; split; [exact H5 |]; split;
         [discriminate | congruence]).
    + by repeat split.
  - by repeat split.
Qed.

(** *** The registry does not leak *)

Lemma onTimeout_pendingTasks tm st :
  pendingTasks (onTimeout tm st) = delete (timerKey tm) (pendingTasks st).
Proof.
  unfold onTimeout. case_bool_decide as Hk.
  - by rewrite settle_pendingTasks.
  - symmetry. apply delete_id.
    destruct (pendingTasks st !! timerKey tm) eqn:E; [| done].
    exfalso. apply Hk. by eexists.
Qed.

Lemma onTimeout_length tm st :
  length (promises (onTimeout tm st)) = length (promises st).
Proof.
  unfold onTimeout. case_bool_decide; [| done]. by rewrite settle_length.
Qed.

Lemma onTimeout_imageWorker tm st :
  imageWorker (onTimeout tm st) = imageWorker st.
Proof.
  unfold onTimeout. case_bool_decide; [| done]. by rewrite settle_imageWorker.
Qed.

Lemma onTimeout_promise_other task tm st :
  timerTask tm <> task ->
  promises (onTimeout tm st) !! task = promises st !! task.
Proof.
  intros Hne. unfold onTimeout. case_bool_decide; [| done].
  by rewrite settle_other.
Qed.

(** What a series of timer callbacks does to the rest of the state. *)
Lemma timeouts_effect (tms : list Timer) st :
  let st' := fold_left (fun st tm => onTimeout tm st) tms st in
  imageWorker st' = imageWorker st
  /\ length (promises st') = length (promises st)
  /\ (forall k, In k (map timerKey tms) -> pendingTasks st' !! k = None)
  /\ (forall k, pendingTasks st' !! k = None
                \/ pendingTasks st' !! k = pendingTasks st !! k)
  /\ (forall task,
        ~ In task (map timerTask tms) ->
        promises st' !! task = promises st !! task).
Proof.
  revert st. induction tms as [| tm tms IH]; intros st; simpl.
  - split; [done |]. split; [done |]. split; [by intros k [] |].
    split; [intros k; by right | done].
  - destruct (IH (onTimeout tm st)) as (Hw & Hl & Hgone & Hreg & Hp).
    split; [by rewrite Hw, onTimeout_imageWorker |].
    split; [by rewrite Hl, onTimeout_length |].
    split; [| split].
    + intros k [<- | Hin]; [| by apply Hgone].
      destruct (Hreg (timerKey tm)) as [H | H]; [exact H |].
      by rewrite H, onTimeout_pendingTasks, lookup_delete_eq.
    + intros k. destruct (Hreg k) as [H | H]; [by left |].
      rewrite H, onTimeout_pendingTasks.
      destruct (decide (timerKey tm = k)) as [<- | Hne].
      * left. apply lookup_delete_eq.
      * right. by apply lookup_delete_ne.
    + intros task Hnot. rewrite Hp by tauto.
      apply onTimeout_promise_other. tauto.
Qed.

Lemma NoDup_task_eq (tms : list Timer) tm1 tm2 :
  NoDup (map timerTask tms) ->
  In tm1 tms -> In tm2 tms -> timerTask tm1 = timerTask tm2 -> tm1 = tm2.
Proof.
  induction tms as [| tm tms IH]; simpl; [done |].
  intros Hnd [-> | H1] [-> | H2] Heq; try done.
  - apply NoDup_cons in Hnd as [Hnot _]. exfalso. apply Hnot.
    apply list_elem_of_In, in_map_iff. by exists tm2.
  - apply NoDup_cons in Hnd as [Hnot _]. exfalso. apply Hnot.
    apply list_elem_of_In, in_map_iff. by exists tm1.
  - apply NoDup_cons in Hnd as [_ Hnd]. by apply IH.
Qed.

Lemma NoDup_task_filter (p : Timer -> bool) (tms : list Timer) :
  NoDup (map timerTask tms) -> NoDup (map timerTask (List.filter p tms)).
Proof.
  induction tms as [| tm tms IH]; simpl; [done |].
  intros Hnd. apply NoDup_cons in Hnd as [Hnot Hnd].
  destruct (p tm); simpl; [| by apply IH].
  apply NoDup_cons. split; [| by apply IH].
  intros Hin. apply Hnot. apply list_elem_of_In in Hin.
  apply list_elem_of_In. apply in_map_iff in Hin as (tm' & Heq & Hin).
  apply in_map_iff. exists tm'. split; [done |].
  by apply filter_In in Hin as [Hin _].
Qed.

Lemma all_due (t : Q) (tms : list Timer) :
  Forall (fun tm => due tm <= t) tms ->
  List.filter (fun tm => negb (Qle_bool (due tm) t)) tms = [].
Proof.
  induction 1 as [| tm tms Hdue _ IH]; simpl; [done |].
  apply Qle_bool_iff in Hdue. by rewrite Hdue.
Qed.

Lemma initial_registryInv : registryInv initial.
Proof.
  split; [done |]. split; [constructor |]. split; [constructor |].
  intros k task. simpl. by rewrite lookup_empty.
Qed.

Lemma step_registryInv st (ev : Event) :
  registryInv st -> registryInv (step st ev).
Proof.
  intros Hinv. pose proof Hinv as (Hw & Hnd & Hbound & Hreg).
  destruct ev as [k | e | t]; simpl.
  - unfold processImageWithWorker. rewrite Hw; simpl.
    split; [done |]. split; [| split]; simpl.
    + rewrite map_app; simpl. apply NoDup_app. split; [exact Hnd |].
      split; [| apply NoDup_singleton].
      intros task Hin ->%list_elem_of_singleton.
      apply list_elem_of_In, in_map_iff in Hin as (tm & Heq & Hin).
      rewrite List.Forall_forall in Hbound.
      destruct (Hbound tm Hin) as [Hlt _]. lia.
    + apply Forall_app. split.
      * eapply Forall_impl; [exact Hbound |].
        intros tm (H1 & H2 & H3). rewrite length_app; simpl.
        split; [lia | by split].
      * constructor; [| constructor]. simpl. rewrite length_app; simpl.
        split; [lia |]. unfold timeout. split; lra.
    + intros k' task Hk'.
      apply lookup_insert_Some in Hk' as [[<- <-] | [Hne Hk']].
      * split; [by rewrite lookup_app_r, Nat.sub_diag |].
        eexists. apply in_or_app. right. by left.
      * destruct (Hreg k' task Hk') as [Hp [d Hd]].
        split; [rewrite lookup_app_l; [done | by eapply lookup_lt_Some] |].
        exists d. apply in_or_app. by left.
  - unfold onmessage.
    destruct (String.eqb (type e) "IMAGE_PROCESSED"); [| exact Hinv].
    destruct (pendingTasks st !! dataCacheKey (data e)) as [task |] eqn:He;
      [| exact Hinv].
    assert (Hgoal : forall s,
              registryInv
                (settle task s
                   (withPendingTasks
                      (delete (dataCacheKey (data e)) (pendingTasks st)) st))).
    { intros s. destruct (Hreg _ _ He) as [Hp [d Hd]].
      split; [by rewrite settle_imageWorker |].
      split; [by rewrite settle_timers |].
      split.
      - rewrite settle_timers, settle_length, settle_now. exact Hbound.
      - intros k' task'. rewrite settle_pendingTasks, settle_timers; simpl.
        intros Hk'. apply lookup_delete_Some in Hk' as [Hne Hk'].
        destruct (Hreg k' task' Hk') as [Hp' [d' Hd']].
        split; [| by exists d'].
        rewrite settle_other; [exact Hp' |].
        intros ->. apply Hne.
        by injection (NoDup_task_eq _ _ _ Hnd Hd Hd' eq_refl). }
    destruct (data e); apply Hgoal.
  - unfold advanceTo. destruct (Qle_bool (now st) t) eqn:Ht;
      [| exact Hinv].
    apply Qle_bool_iff in Ht.
    set (dueNow := List.filter (fun tm => Qle_bool (due tm) t) (timers st)).
    set (later := List.filter (fun tm => negb (Qle_bool (due tm) t))
                              (timers st)).
    set (st0 := mkState (imageWorker st) (pendingTasks st) (promises st)
                        (posted st) later t).
    destruct (timeouts_effect dueNow st0) as (Hw' & Hl' & Hgone & Hreg' & Hp').
    destruct (timeouts_frame dueNow st0) as [Htimers Hclock].
    split; [by rewrite Hw' |].
    rewrite Htimers, Hclock, Hl'; simpl.
    split; [by apply NoDup_task_filter |].
    split.
    + rewrite List.Forall_forall in Hbound |- *. intros tm Hin.
      apply filter_In in Hin as [Hin Hlate].
      apply negb_true_iff, Qle_bool_false in Hlate.
      destruct (Hbound tm Hin) as (H1 & H2 & H3).
      split; [exact H1 |]. split; [exact Hlate | lra].
    + intros k task Hk'.
      assert (Hk : pendingTasks st !! k = Some task).
      { destruct (Hreg' k) as [H | H]; [congruence |].
        rewrite H in Hk'. exact Hk'. }
      destruct (Hreg k task Hk) as [Hp [d Hd]].
      assert (Hlate : In (mkTimer d k task) later).
      { apply filter_In. split; [exact Hd |]. simpl.
        destruct (Qle_bool d t) eqn:Hdue; [| done].
        exfalso. rewrite Hgone in Hk'; [done |]. apply in_map_iff.
        exists (mkTimer d k task). split; [done |].
        apply filter_In. by split. }
      split; [| by exists d].
      rewrite Hp'; [exact Hp |].
      intros Hin. apply in_map_iff in Hin as (tm & Heq & Hin).
      apply filter_In in Hin as [Hin Hdue].
      apply filter_In in Hlate as [_ Hnotdue].
      pose proof (NoDup_task_eq _ _ _ Hnd Hin Hd Heq) as ->.
      simpl in Hdue, Hnotdue. by rewrite Hdue in Hnotdue.
Qed.

Lemma run_registryInv st (evs : list Event) :
  registryInv st -> registryInv (run st evs).
Proof.
  unfold run. revert st. induction evs as [| ev evs IH]; intros st H; simpl;
    [exact H |].
  apply IH. by apply step_registryInv.
Qed.

(** In every run that starts with an empty registry, each registry entry
    holds a promise that is still pending and whose own timer is still
    outstanding, due within the next 10000 ms.  So no entry outlives its
    timeout: once 10000 ms have passed without a new call the registry is
    empty and no timer is left. *)
Theorem registry_never_leaks (evs : list Event) (t : Q) :
  let st := run initial evs in
  (forall k task,
     pendingTasks st !! k = Some task ->
     promises st !! task = Some Pending
     /\ exists d, In (mkTimer d k task) (timers st)
                  /\ now st < d /\ d <= now st + timeout)
  /\ (now st + timeout <= t ->
      pendingTasks (run initial (evs ++ [AdvanceTo t])) = ∅
      /\ timers (run initial (evs ++ [AdvanceTo t])) = []).
Proof.
  intros st.
  pose proof (run_registryInv initial evs initial_registryInv)
    as (Hw & Hnd & Hbound & Hreg).
  fold st in Hw, Hnd, Hbound, Hreg.
  split.
  - intros k task Hk. destruct (Hreg k task Hk) as [Hp [d Hd]].
    split; [exact Hp |]. exists d. split; [exact Hd |].
    rewrite List.Forall_forall in Hbound.
    by destruct (Hbound _ Hd) as (_ & H2 & H3).
  - intros Ht.
    pose proof (run_registryInv initial (evs ++ [AdvanceTo t])
                  initial_registryInv) as (_ & _ & _ & Hreg').
    assert (Htimers : timers (run initial (evs ++ [AdvanceTo t])) = []).
    { unfold run. rewrite fold_left_app; simpl. fold (run initial evs).
      fold st. unfold advanceTo.
      assert (Hle : Qle_bool (now st) t = true).
      { apply Qle_bool_iff. unfold timeout in Ht. lra. }
      rewrite Hle.
      match goal with |- timers (fold_left _ ?l ?s0) = _ =>
        destruct (timeouts_frame l s0) as [-> _]
      end; simpl.
      apply all_due. eapply Forall_impl; [exact Hbound |].
      intros tm (_ & _ & H3). simpl in H3. lra. }
    split; [| exact Htimers].
    apply map_empty. intros k.
    destruct (pendingTasks (run initial (evs ++ [AdvanceTo t])) !! k)
      as [task |] eqn:Hk; [| done].
    destruct (Hreg' k task Hk) as [_ [d Hd]].
    rewrite Htimers in Hd. destruct Hd.
Qed.

End RegistryInvariantFacts.

(** ** The image caches of the hooks *)

Module ImageCachesFacts.
Import WorkerImage ImageCaches.

Lemma get_tail {V} (k : string) (m : JsMap.t V) :
  NoDup (JsMap.keys m) ->
  JsMap.get k (tail m) =
  if decide (JsMap.firstKey m = Some k) then None else JsMap.get k m.
Proof.
  destruct m as [| [k0 v0] m]; simpl; [done |].
  intros Hnd. apply NoDup_cons in Hnd as [Hk0 _].
  unfold JsMap.firstKey; simpl.
  destruct (decide (Some k0 = Some k)) as [[= ->] | Hne].
  - apply JsMapMore.get_None_keys. intros Hin. apply Hk0.
    by apply list_elem_of_In.
  - unfold JsMap.get; simpl.
    destruct (String.eqb k0 k) eqn:E; [| done].
    apply String.eqb_eq in E. congruence.
Qed.

Lemma keys_set_order {V} (k : string) (v : V) (m : JsMap.t V) :
  JsMap.keys (JsMap.set k v m) =
  if JsMap.has k m then JsMap.keys m else JsMap.keys m ++ [k].
Proof.
  induction m as [| [k0 v0] m IH]; [done |].
  unfold JsMap.has, JsMap.get in *. cbn [JsMap.set List.find fst].
  destruct (String.eqb k0 k) eqn:E.
  - cbn. done.
  - change (JsMap.keys ((k0, v0) :: JsMap.set k v m))
      with (k0 :: JsMap.keys (JsMap.set k v m)).
    rewrite IH.
    change (JsMap.keys ((k0, v0) :: m)) with (k0 :: JsMap.keys m).
    by destruct (bool_decide _).
Qed.

Lemma size_keys {V} (m : JsMap.t V) : JsMap.size m = length (JsMap.keys m).
Proof. unfold JsMap.size, JsMap.keys. by rewrite length_fmap. Qed.

Lemma storeUpTo_eq (limit : nat) (key dataUrl : string)
    (imageCache : JsMap.t string) :
  Forall (fun k => k <> ""%string) (JsMap.keys imageCache) ->
  storeUpTo limit key dataUrl imageCache =
  JsMap.set key dataUrl (afterEviction limit imageCache).
Proof.
  intros Hkeys. unfold storeUpTo, afterEviction.
  destruct (limit <=? JsMap.size imageCache)%nat; [| reflexivity].
  destruct imageCache as [| [k v] m]; [reflexivity |].
  apply Forall_cons in Hkeys as [Hk _]; simpl in Hk.
  unfold truthy; simpl.
  destruct (String.eqb k "") eqn:E; [by apply String.eqb_eq in E |]; simpl.
  by rewrite String.eqb_refl.
Qed.

Lemma afterEviction_wellFormed limit (imageCache : JsMap.t string) :
  wellFormed imageCache -> wellFormed (afterEviction limit imageCache).
Proof.
  intros [Hnd Hkeys]. unfold afterEviction.
  destruct (limit <=? JsMap.size imageCache)%nat; [| by split].
  destruct imageCache as [| [k v] m]; [by split |]. simpl in *.
  apply NoDup_cons in Hnd as [_ Hnd].
  apply Forall_cons in Hkeys as [_ Hkeys]. by split.
Qed.

(** One store into a well-formed cache of at most [limit] entries. *)
Lemma storeUpTo_spec (limit : nat) (key dataUrl : string)
    (imageCache : JsMap.t string) :
  (1 <= limit)%nat -> key <> ""%string ->
  wellFormed imageCache -> (JsMap.size imageCache <= limit)%nat ->
  let rest := afterEviction limit imageCache in
  let imageCache' := storeUpTo limit key dataUrl imageCache in
  wellFormed imageCache'
  /\ (JsMap.size imageCache' <= limit)%nat
  /\ JsMap.get key imageCache' = Some dataUrl
  /\ (forall k, k <> key ->
        JsMap.get k imageCache' =
        if decide (evicted limit imageCache = Some k) then None
        else JsMap.get k imageCache)
  /\ JsMap.keys imageCache' =
       (if JsMap.has key rest then JsMap.keys rest
        else JsMap.keys rest ++ [key])
  /\ JsMap.size rest =
       (if (limit <=? JsMap.size imageCache)%nat
        then JsMap.size imageCache - 1 else JsMap.size imageCache)%nat.
Proof.
  intros Hlimit Hkey Hwf Hsize rest imageCache'.
  pose proof (afterEviction_wellFormed limit imageCache Hwf) as [Hnd' Hkeys'].
  destruct Hwf as [Hnd Hkeys].
  assert (Heq : imageCache' = JsMap.set key dataUrl rest)
    by by apply storeUpTo_eq.
  assert (Hrest : JsMap.size rest =
            (if (limit <=? JsMap.size imageCache)%nat
             then JsMap.size imageCache - 1 else JsMap.size imageCache)%nat).
  { subst rest. unfold afterEviction.
    destruct (limit <=? JsMap.size imageCache)%nat; [| done].
    destruct imageCache; unfold JsMap.size; simpl; lia. }
  rewrite Heq.
  split; [| split; [| split; [| split; [| split]]]].
  - split; [by apply JsMapMore.keys_set_NoDup |].
    by apply JsMapFacts.keys_set.
  - etransitivity; [apply JsMapFacts.size_set |]. rewrite Hrest.
    destruct (limit <=? JsMap.size imageCache)%nat eqn:Hfull.
    + lia.
    + apply Nat.leb_gt in Hfull. lia.
  - apply JsMapFacts.get_set_eq.
  - intros k Hne. rewrite JsMapMore.get_set_ne by done.
    subst rest. unfold afterEviction, evicted.
    destruct (limit <=? JsMap.size imageCache)%nat.
    + by apply get_tail.
    + by rewrite decide_False.
  - apply keys_set_order.
  - exact Hrest.
Qed.

Section Hooks.
Variable numberToString : Q -> string.

Lemma useImageKey_truthy imageId width height :
  useImageKey numberToString imageId width height <> ""%string.
Proof. unfold useImageKey. destruct imageId; discriminate. Qed.

Lemma reachable50_invariant (imageCache : JsMap.t string) :
  reachable50 numberToString imageCache ->
  wellFormed imageCache /\ (JsMap.size imageCache <= 50)%nat.
Proof.
  induction 1 as [| imageId width height dataUrl imageCache _ [IHwf IHsize]].
  - split; [split; constructor | unfold JsMap.size; simpl; lia].
  - destruct (storeUpTo_spec 50
                (useImageKey numberToString imageId width height)
                dataUrl imageCache) as (H1 & H2 & _);
      [lia | apply useImageKey_truthy | exact IHwf | exact IHsize |].
    by split.
Qed.

Lemma reachable_wellFormed (imageCache : JsMap.t string) :
  reachable numberToString imageCache ->
  wellFormed imageCache /\ (JsMap.size imageCache <= 100)%nat.
Proof.
  induction 1 as [| p dataUrl imageCache _ [IHwf IHsize]].
  - split; [split; constructor | unfold JsMap.size; simpl; lia].
  - destruct (storeUpTo_spec 100 (cacheKey numberToString p) dataUrl
                imageCache) as (H1 & H2 & _);
      [lia | apply CacheFacts.cacheKey_truthy | exact IHwf | exact IHsize |].
    by split.
Qed.

(** The cache of [useImage] never holds more than 50 entries and never holds
    a key twice.  A store makes the stored key answer with the new value; it
    drops the oldest key when the cache already held 50 entries, and changes
    the answer for no other key. *)
Theorem useImage_cache_bounded (imageCache : JsMap.t string)
    imageId width height dataUrl :
  reachable50 numberToString imageCache ->
  let key := useImageKey numberToString imageId width height in
  let imageCache' := storeUpTo 50 key dataUrl imageCache in
  (JsMap.size imageCache <= 50)%nat
  /\ NoDup (JsMap.keys imageCache)
  /\ (JsMap.size imageCache' <= 50)%nat
  /\ JsMap.get key imageCache' = Some dataUrl
  /\ (forall k, k <> key ->
        JsMap.get k imageCache' =
        if decide (evicted 50 imageCache = Some k) then None
        else JsMap.get k imageCache).
Proof.
  intros Hreach key imageCache'.
  destruct (reachable50_invariant imageCache Hreach) as [Hwf Hsize].
  destruct (storeUpTo_spec 50 key dataUrl imageCache) as (_ & H2 & H3 & H4 & _);
    [lia | apply useImageKey_truthy | exact Hwf | exact Hsize |].
  split; [exact Hsize |]. split; [by destruct Hwf |].
  split; [exact H2 |]. split; [exact H3 | exact H4].
Qed.

(** The cache of [useWorkerImage] is first in, first out.  A store changes
    the answer only for the stored key and for the key it drops, which is the
    oldest key and is dropped exactly when the cache already held 100
    entries, whether or not the stored key was present.  A key that was
    present keeps its place in the order, a new key goes last; looking a key
    up never moves it. *)
Theorem useWorkerImage_cache_fifo (imageCache : JsMap.t string) p dataUrl :
  reachable numberToString imageCache ->
  let key := cacheKey numberToString p in
  let rest := afterEviction 100 imageCache in
  let imageCache' := storeInCache key dataUrl imageCache in
  NoDup (JsMap.keys imageCache)
  /\ NoDup (JsMap.keys imageCache')
  /\ (forall k, k <> key ->
        JsMap.get k imageCache' =
        if decide (evicted 100 imageCache = Some k) then None
        else JsMap.get k imageCache)
  /\ JsMap.keys imageCache' =
       (if JsMap.has key rest then JsMap.keys rest
        else JsMap.keys rest ++ [key])
  /\ JsMap.size imageCache' =
       ((if (100 <=? JsMap.size imageCache)%nat
         then JsMap.size imageCache - 1 else JsMap.size imageCache)
        + (if JsMap.has key rest then 0 else 1))%nat.
Proof.
  intros Hreach key rest imageCache'.
  destruct (reachable_wellFormed imageCache Hreach) as [Hwf Hsize].
  destruct (storeUpTo_spec 100 key dataUrl imageCache)
    as ((Hnd' & _) & _ & _ & H4 & H5 & H6);
    [lia | apply CacheFacts.cacheKey_truthy | exact Hwf | exact Hsize |].
  split; [by destruct Hwf |]. split; [exact Hnd' |].
  split; [exact H4 |]. split; [exact H5 |].
  change (JsMap.size (storeUpTo 100 key dataUrl imageCache) =
          ((if (100 <=? JsMap.size imageCache)%nat
            then JsMap.size imageCache - 1 else JsMap.size imageCache)
           + (if JsMap.has key rest then 0 else 1))%nat).
  rewrite size_keys, H5, <- H6. fold rest.
  destruct (JsMap.has key rest).
  - rewrite <- size_keys. lia.
  - rewrite length_app, <- size_keys. simpl. lia.
Qed.

End Hooks.

Lemma useImage_cache_bounded_witness :
  reachable50 printUnit
    (storeUpTo 50 (useImageKey printUnit "cover" 1 1) "url" [])
  /\ JsMap.get (useImageKey printUnit "cover" 1 1)
       (storeUpTo 50 (useImageKey printUnit "cover" 1 1) "url2"
          (storeUpTo 50 (useImageKey printUnit "cover" 1 1) "url" []))
     = Some "url2"%string.
Proof.
  assert (H : reachable50 printUnit
                (storeUpTo 50 (useImageKey printUnit "cover" 1 1) "url" []))
    by (apply reachable50_store, reachable50_empty).
  split; [exact H |].
  exact (proj1 (proj2 (proj2 (proj2
           (useImage_cache_bounded printUnit _ "cover" 1 1 "url2" H))))).
Defined.

Lemma useWorkerImage_cache_fifo_witness :
  reachable printUnit (storeInCache (cacheKey printUnit cover) "url" [])
  /\ JsMap.keys (storeInCache (cacheKey printUnit cover) "url2"
                   (storeInCache (cacheKey printUnit cover) "url" []))
     = ["cover-1-1-1-jpg"%string].
Proof.
  assert (H : reachable printUnit
                (storeInCache (cacheKey printUnit cover) "url" []))
    by (apply reachable_store, reachable_empty).
  destruct (useWorkerImage_cache_fifo printUnit _ cover "url2" H)
    as (_ & _ & _ & Hkeys & _).
  split; [exact H |]. rewrite Hkeys. reflexivity.
Defined.

End ImageCachesFacts.

(** ** The comic viewer *)

Module ComicViewerFacts.
Import ComicViewer.

(** The loop keeps the first value of least magnitude. *)
Lemma least_magnitude (candidates : list Q) (s0 : Q) :
  let r := fold_left
             (fun scrollToLeft candidate =>
                if Qltb (Qabs candidate) (Qabs scrollToLeft) then candidate
                else scrollToLeft)
             candidates s0 in
  (r = s0 \/ In r candidates)
  /\ Qabs r <= Qabs s0
  /\ (forall c, In c candidates -> Qabs r <= Qabs c).
Proof.
  revert s0. induction candidates as [| c cs IH]; intros s0; simpl.
  - split; [by left |]. split; [lra | by intros c []].
  - destruct (Qltb (Qabs c) (Qabs s0)) eqn:Hlt.
    + apply Qltb_true in Hlt.
      destruct (IH c) as (Hin & Hle & Hall).
      split; [right; destruct Hin as [-> | Hin]; [by left | by right] |].
      split; [lra |].
      intros c' [<- | Hc']; [exact Hle | by apply Hall].
    + apply Qltb_false in Hlt.
      destruct (IH s0) as (Hin & Hle & Hall).
      split; [destruct Hin as [-> | Hin]; [by left | right; by right] |].
      split; [exact Hle |].
      intros c' [<- | Hc']; [lra | by apply Hall].
Qed.

(** [getScrollToLeft] returns the distance of least magnitude among the
    distances from the centre of the scroll view to the centres of the
    children, each child widened by its scroll margin; without children, or
    when no distance is below [Number.MAX_SAFE_INTEGER] in magnitude, it
    returns [Number.MAX_SAFE_INTEGER].  The logger does not change the
    result. *)
Theorem getScrollToLeft_least {App : Type} this (count : nat) (width : Q)
    (scrollView : ClientRect) (children : list ClientRect) metadata endTime
    (w : Tracker.World App) :
  let centre := (left scrollView + right scrollView) / 2 in
  let candidates := imap (candidateScrollToLeft count width centre) children in
  let r := fst (getScrollToLeft this count width scrollView children
                  metadata endTime w) in
  (r = MAX_SAFE_INTEGER \/ In r candidates)
  /\ Qabs r <= MAX_SAFE_INTEGER
  /\ (forall c, In c candidates -> Qabs r <= Qabs c)
  /\ (forall i child,
        children !! i = Some child ->
        Qabs r <= Qabs (candidateScrollToLeft count width centre i child))
  /\ fst (getScrollToLeft this count width scrollView [] metadata endTime w)
     = MAX_SAFE_INTEGER.
Proof.
  intros centre candidates r.
  assert (Hr : r = scrollToLeftOf count width scrollView children).
  { subst r. unfold getScrollToLeft.
    by destruct (Tracker.end_ _ _ _ _). }
  destruct (least_magnitude candidates MAX_SAFE_INTEGER) as (H1 & H2 & H3).
  fold centre in Hr. unfold scrollToLeftOf in Hr. fold centre candidates in Hr.
  rewrite <- Hr in H1, H2, H3.
  split; [exact H1 |]. split; [exact H2 |]. split; [exact H3 |]. split.
  - intros i child Hi. apply H3. subst candidates.
    apply list_elem_of_In, list_elem_of_lookup. exists i.
    by rewrite list_lookup_imap, Hi.
  - unfold getScrollToLeft. by destruct (Tracker.end_ _ _ _ _).
Qed.

End ComicViewerFacts.

(** ** [useStatePerformance] *)

Module HooksFacts.
Import Tracker Hooks.

(** With the logger enabled, one state update measures the time from the
    call to its timeout.  When a second update of the same state is made
    before the timeout of the first has run, both timeouts measure from the
    second call: the first returns [t3 - t2], the second closes the same
    record again with [t4 - t2], and no warning is written. *)
Theorem overlapping_state_updates {App : Type} this (setState : App -> App)
    name (w : World App) (t1 t2 t3 t4 : Q) :
  isEnabled this = true ->
  let l0 := mkLoop w [] in
  let single :=
    runTimeout this t3 (setStateWithPerformance this setState name t1 l0) in
  let twice :=
    setStateWithPerformance this setState name t2
      (setStateWithPerformance this setState name t1 l0) in
  let first := runTimeout this t3 twice in
  let second := runTimeout this t4 (snd first) in
  fst single = Some (t3 - t1)
  /\ fst first = Some (t3 - t2)
  /\ fst second = Some (t4 - t2)
  /\ measurements (world (snd second)) =
       <[intervalName name :=
           mkPerformanceData (intervalName name) t2 (Some t4)
                             (Some (t4 - t2)) None]> (measurements w)
  /\ app (world (snd second)) = setState (setState (app w))
  /\ timeouts (snd second) = []
  /\ console (world (snd second)) =
       console w ++
         [LogStarted (intervalName name) None;
          LogStarted (intervalName name) None;
          LogFinished (durationColor (t3 - t2)) (intervalName name)
                      (t3 - t2) ∅;
          LogFinished (durationColor (t4 - t2)) (intervalName name)
                      (t4 - t2) ∅].
Proof.
  intros on l0 single twice first second.
  subst second first twice single l0.
  unfold runTimeout, setStateWithPerformance, start, end_; simpl.
  rewrite on; simpl.
  rewrite !lookup_insert_eq; simpl.
  rewrite !lookup_insert_eq; simpl.
  rewrite !insert_insert_eq, <- !app_assoc; simpl.
  unfold spread; simpl. rewrite !(left_id_L ∅ (∪)).
  by repeat split.
Qed.

Lemma overlapping_state_updates_witness :
  isEnabled enabled = true
  /\ fst (runTimeout enabled 30
            (setStateWithPerformance enabled (fun u : unit => u) "page" 20
               (setStateWithPerformance enabled (fun u : unit => u) "page" 10
                  (mkLoop w0 []))))
     = Some (30 - 20).
Proof.
  assert (H : isEnabled enabled = true) by reflexivity.
  split; [exact H |].
  exact (proj1 (proj2
           (overlapping_state_updates enabled (fun u : unit => u) "page" w0
              10 20 30 40 H))).
Defined.

End HooksFacts.
